(** * toil.jobStores.aws.file_info: a shallow embedding of [AWSFile]

    The development follows [src/toil/jobStores/aws/file_info.py].  An
    [AWSFile] is a record of Python attributes; methods that talk to the
    local file system or to AWS run in a state-and-exception monad over a
    [World] (local files and the calls issued so far); the two pipe stages
    of [downloadStream] are functions over an explicit readable and
    writable end.

    What lives outside the file is kept at its interface: [hashlib] and the
    helpers the class uses but does not define are fields of [Runtime], the
    job store behind [self.outer] answers through the functions of [Outer].
    Calls to boto are recorded in the world and return normally, network
    failures belonging to the retry layer around this class; the one call
    whose failure is part of its contract, the conditional delete of the
    metadata record, fails when the domain holds another version. *)

From Stdlib Require Import ZArith NArith List Strings.String Strings.Ascii Strings.Byte Lia.
From stdpp Require Import base strings gmap list.
From Equations Require Import Equations.
Import ListNotations.

Set Default Proof Using "Type".
#[local] Set Warnings "-clear-no-such-hyp".

(** ** Python values *)

(** A Python [bytes] object. *)
Abbreviation bytes := (list byte).

(** [b"..."] literals. *)
Definition b (s : string) : bytes := list_byte_of_string s.

(** The exceptions this file raises or handles. *)
Inductive exn : Type :=
| ChecksumError (msg : string)
| AssertionError
| RuntimeError (msg : string)
| ValueError (msg : string)
| AttributeError (msg : string)
| BrokenPipeError
| FileNotFoundError (path : string)
| SDBResponseError (code : string).

Inductive result (A : Type) : Type :=
| Ok (a : A)
| Raise (e : exn).
Arguments Ok {A} a.
Arguments Raise {A} e.

(** [s.split(sep)] for a one-character separator: every occurrence splits. *)
Fixpoint split (sep : ascii) (s : string) : list string :=
  match s with
  | EmptyString => [EmptyString]
  | String c rest =>
      if Ascii.eqb c sep then EmptyString :: split sep rest
      else match split sep rest with
           | h :: t => String c h :: t
           | [] => [String c EmptyString]
           end
  end.

(** [a, b = parts]: tuple unpacking into two names. *)
Definition unpack2 (parts : list string) : result (string * string) :=
  match parts with
  | [x; y] => Ok (x, y)
  | _ :: _ :: _ :: _ => Raise (ValueError "too many values to unpack (expected 2)")
  | _ => Raise (ValueError "not enough values to unpack (expected 2, got 1)")
  end.

(** [algorithm, digest = checksum.split('$')], as written at both places
    that take a checksum string apart. *)
Definition split_checksum (checksum : string) : result (string * string) :=
  unpack2 (split "$" checksum).

(** [f'{algorithm}${digest}'] *)
Definition format_checksum (algorithm digest : string) : string :=
  algorithm +:+ "$" +:+ digest.

(** Number of occurrences of a character, to state what [split] returns. *)
Fixpoint count_char (c : ascii) (s : string) : nat :=
  match s with
  | EmptyString => 0
  | String x rest => (if Ascii.eqb x c then 1 else 0) + count_char c rest
  end.

(** ** Reading a stream in chunks *)

(** [readable.read(size)] on a buffered reader: the next [size] bytes, fewer
    only at the end of the stream, [b''] at EOF. *)
Fixpoint take_bytes (size : N) (data : bytes) : bytes :=
  match data with
  | [] => []
  | x :: rest => if N.eqb size 0 then [] else x :: take_bytes (N.pred size) rest
  end.

Fixpoint drop_bytes (size : N) (data : bytes) : bytes :=
  match data with
  | [] => []
  | _ :: rest => if N.eqb size 0 then data else drop_bytes (N.pred size) rest
  end.

Definition read (size : N) (readable : bytes) : bytes * bytes :=
  (take_bytes size readable, drop_bytes size readable).

(** ** The writable end of a pipe *)

(** What the writer sees of its pipe: the bytes taken so far, and how many
    more writes go through before the reading side has closed its end
    ([None]: the reader stays until end-of-stream). *)
Record Writable : Type := {
  received : bytes;
  accepts : option nat
}.

Definition fresh_pipe : Writable := {| received := []; accepts := None |}.

(** [writable.write(data)]: raises [BrokenPipeError] once the reader is gone. *)
Definition write (data : bytes) (w : Writable) : result unit * Writable :=
  match accepts w with
  | Some O => (Raise BrokenPipeError, w)
  | Some (S k) => (Ok tt, {| received := received w ++ data; accepts := Some k |})
  | None => (Ok tt, {| received := received w ++ data; accepts := None |})
  end.

(** ** The job store behind [self.outer] and the record itself *)

Record Outer : Type := {
  region : string;
  filesBucket : string;                          (* filesBucket.name *)
  partSize : Z;
  object_body : string -> string -> bytes;       (* what S3 delivers for key, VersionId *)
  object_content_length : string -> Z;           (* content_length of Object(key): no VersionId *)
  domain_version : string -> option string;      (* 'version' the files domain holds for an item *)
  uploaded_version : string -> bytes -> string   (* the version S3 gives an upload *)
}.

(** The attributes of an [AWSFile].  [__init__] stores the inlined content
    under [_content] and every method reads it as [content]; the record has
    the one field.  [version], [previousVersion] and [outer] are read by the
    methods and documented in [__init__]. *)
Record AWSFile : Type := {
  fileID : string;
  ownerID : string;
  encrypted : bool;
  content : option bytes;
  numContentChunks : Z;
  checksum : option string;
  sseKeyPath : option string;
  version : option string;
  previousVersion : option string;
  outer : Outer
}.

Definition set_checksum (c : option string) (self : AWSFile) : AWSFile :=
  {| fileID := fileID self; ownerID := ownerID self; encrypted := encrypted self;
     content := content self; numContentChunks := numContentChunks self;
     checksum := c; sseKeyPath := sseKeyPath self; version := version self;
     previousVersion := previousVersion self; outer := outer self |}.

Definition set_version (v : option string) (self : AWSFile) : AWSFile :=
  {| fileID := fileID self; ownerID := ownerID self; encrypted := encrypted self;
     content := content self; numContentChunks := numContentChunks self;
     checksum := checksum self; sseKeyPath := sseKeyPath self; version := v;
     previousVersion := previousVersion self; outer := outer self |}.

(** What the class uses and does not define. *)
Class Runtime : Type := {
  (* getattr(hashlib, algorithm)(): the hex digest of the bytes fed to the
     hasher, [None] where hashlib has no such attribute *)
  hashlib : string -> option (bytes -> string);
  (* the default [algorithm] of compute_checksum_for_file *)
  default_algorithm : string;
  (* the temporary path AtomicFileCreate hands out for a destination *)
  atomic_tmp_file : string -> string;
  _s3EncryptionArgs : AWSFile -> list (string * string);
  _getSSEKey : AWSFile -> option bytes
}.

(** [compat_bytes] leaves a [str] as it is. *)
Definition compat_bytes (s : string) : string := s.

(** ** The world: local files and the calls made to AWS *)

Inductive Call : Type :=
| UploadFromPath (localFilePath bucketName file_id : string)
                 (headerArgs : list (string * string)) (part_size : Z)
| PutObject (bucket key : string) (body : bytes)
| CopyKeyMultipart (srcBucketName srcKeyName srcKeyVersion dstBucketName dstKeyName : string)
                   (copySourceSseAlgorithm : string) (copySourceSseKey : option bytes)
| DownloadFile (bucket key filename versionId : string) (extraArgs : list (string * string))
| DownloadFileobj (bucket key versionId : string) (extraArgs : list (string * string))
| ContentLength (bucket key : string)
| DeleteAttributes (item_name : string) (expected_values : string * string)
| DeleteObject (bucket key versionId : string).

Record World : Type := {
  files : gmap string bytes;
  calls : list Call
}.

Definition M (A : Type) : Type := World -> result A * World.

Definition ret {A} (a : A) : M A := fun w => (Ok a, w).
Definition raise {A} (e : exn) : M A := fun w => (Raise e, w).
Definition bind {A B} (m : M A) (k : A -> M B) : M B :=
  fun w => match m w with
           | (Ok a, w') => k a w'
           | (Raise e, w') => (Raise e, w')
           end.
Definition lift {A} (r : result A) : M A := fun w => (r, w).

Declare Scope py_scope.
Delimit Scope py_scope with py.
Notation "x <- m ;; k" := (bind m (fun x => k))
  (at level 100, m at next level, right associativity) : py_scope.
Notation "m ;;; k" := (bind m (fun _ => k))
  (at level 100, right associativity) : py_scope.
Open Scope py_scope.

Definition call (c : Call) : M unit :=
  fun w => (Ok tt, {| files := files w; calls := calls w ++ [c] |}).

Definition write_file (path : string) (data : bytes) : M unit :=
  fun w => (Ok tt, {| files := <[path := data]> (files w); calls := calls w |}).

Definition read_file (path : string) : M bytes :=
  fun w => match files w !! path with
           | Some data => (Ok data, w)
           | None => (Raise (FileNotFoundError path), w)
           end.

(** Modelled from the spec: toil.lib.io.AtomicFileCreate is not in this
    file.  The body writes to a temporary path; on success the temporary
    file is renamed onto the destination, on failure it is discarded and the
    exception goes on. *)
Definition AtomicFileCreate {R : Runtime} {A} (final_path : string)
    (body : string -> M A) : M A :=
  fun w =>
    let tmpPath := atomic_tmp_file final_path in
    match body tmpPath w with
    | (Ok a, w') =>
        match files w' !! tmpPath with
        | Some data =>
            (Ok a, {| files := <[final_path := data]> (base.delete tmpPath (files w'));
                      calls := calls w' |})
        | None => (Raise (FileNotFoundError tmpPath), w')
        end
    | (Raise e, w') =>
        (Raise e, {| files := base.delete tmpPath (files w'); calls := calls w' |})
    end.

(** Modelled from the spec: toil.lib.checksum.compute_checksum_for_file is
    not in this file.  It streams the file through the named algorithm; its
    result is the whole checksum string, which [upload] stores in [checksum]
    and [download] compares with [checksum]. *)
Definition compute_checksum_for_file {R : Runtime} (local_file_path algorithm : string)
    : M string :=
  data <- read_file local_file_path ;;
  match hashlib algorithm with
  | Some hexdigest => ret (format_checksum algorithm (hexdigest data))
  | None => raise (AttributeError algorithm)
  end.

(** Modelled from the spec: toil.jobStores.aws.utils.uploadFromPath is not
    in this file.  It sends the bytes of the local file to the bucket and
    returns the version token of the new object. *)
Definition uploadFromPath (o : Outer) (localFilePath bucketName file_id : string)
    (headerArgs : list (string * string)) (part_size : Z) : M string :=
  data <- read_file localFilePath ;;
  call (UploadFromPath localFilePath bucketName file_id headerArgs part_size) ;;;
  ret (uploaded_version o file_id data).

(** [if value:] on an [Optional[str]]: [None] and [''] are falsy; the string
    when it is truthy. *)
Definition nonempty (v : option string) : option string :=
  match v with
  | Some s => if String.eqb s "" then None else Some s
  | None => None
  end.

(** [obj.download_file(Filename=..., ExtraArgs={'VersionId': ..., **headerArgs})] *)
Definition download_file (o : Outer) (key filename versionId : string)
    (headerArgs : list (string * string)) : M unit :=
  call (DownloadFile (filesBucket o) key filename versionId headerArgs) ;;;
  write_file filename (object_body o key versionId).

(** An [S3.Object] handed to [copyTo]. *)
Record S3Object : Type := {
  bucket_name : string;
  key : string
}.

(** Modelled from the spec: the metadata catalog behind
    [store.filesDomain] is not in this file.  [delete_attributes] with
    [expected_values] is a conditional delete: it goes through when the
    domain holds the expected value of the attribute for the item, and
    fails otherwise, which signals a concurrent modification. *)
Definition delete_attributes (o : Outer) (item_name : string)
    (expected_values : string * string) : M unit :=
  call (DeleteAttributes item_name expected_values) ;;;
  match domain_version o item_name with
  | Some held =>
      if String.eqb held (snd expected_values) then ret tt
      else raise (SDBResponseError "ConditionalCheckFailed")
  | None => raise (SDBResponseError "ConditionalCheckFailed")
  end.

(** Whether the files domain holds [pv] as the version of the item. *)
Definition domain_holds (o : Outer) (item_name pv : string) : bool :=
  match domain_version o item_name with
  | Some held => String.eqb held pv
  | None => false
  end.

(** ** The methods of [AWSFile] *)

Section Methods.
Context {R : Runtime}.

Definition upload (self : AWSFile) (localFilePath : string) (calculateChecksum : bool)
    : M AWSFile :=
  let headerArgs := _s3EncryptionArgs self in
  c <- (if calculateChecksum
        then x <- compute_checksum_for_file localFilePath default_algorithm ;; ret (Some x)
        else ret None) ;;
  let self := set_checksum c self in
  v <- uploadFromPath (outer self) localFilePath (filesBucket (outer self))
         (compat_bytes (fileID self)) headerArgs (partSize (outer self)) ;;
  ret (set_version (Some v) self).

Definition copyTo (self : AWSFile) (dstObj : S3Object) : M unit :=
  match content self with
  | Some data => call (PutObject (bucket_name dstObj) (key dstObj) data)
  | None =>
      match nonempty (version self) with
      | Some v =>
          call (CopyKeyMultipart (compat_bytes (filesBucket (outer self)))
                  (compat_bytes (fileID self)) (compat_bytes v)
                  (compat_bytes (bucket_name dstObj)) (compat_bytes (key dstObj))
                  "AES256" (_getSSEKey self))
      | None => raise AssertionError
      end
  end.

Definition mismatch_message (localFilePath expected computed : string) : string :=
  "Checksum mismatch for file " +:+ localFilePath +:+ ". " +:+
  "Expected: " +:+ expected +:+ " Actual: " +:+ computed.

Definition download (self : AWSFile) (localFilePath : string) (verifyChecksum : bool)
    : M unit :=
  match content self with
  | Some data =>
      AtomicFileCreate localFilePath (fun tmpPath => write_file tmpPath data)
  | None =>
      match nonempty (version self) with
      | Some v =>
          let headerArgs := _s3EncryptionArgs self in
          AtomicFileCreate localFilePath (fun tmpPath =>
            download_file (outer self) (compat_bytes (fileID self)) tmpPath v headerArgs) ;;;
          match (if verifyChecksum then nonempty (checksum self) else None) with
          | Some cs =>
              parts <- lift (split_checksum cs) ;;
              let algorithm := fst parts in
              computed <- compute_checksum_for_file localFilePath algorithm ;;
              if negb (String.eqb cs computed)
              then raise (ChecksumError (mismatch_message localFilePath cs computed))
              else ret tt
          | None => ret tt
          end
      | None => raise AssertionError
      end
  end.

Definition delete (self : AWSFile) : M unit :=
  let store := outer self in
  match previousVersion self with
  | Some pv =>
      delete_attributes store (compat_bytes (fileID self)) ("version", pv) ;;;
      match nonempty (previousVersion self) with
      | Some _ => call (DeleteObject (filesBucket store) (compat_bytes (fileID self)) pv)
      | None => ret tt
      end
  | None => ret tt
  end.

Definition getSize (self : AWSFile) : M Z :=
  match content self with
  | Some data => ret (Z.of_nat (length data))
  | None =>
      match nonempty (version self) with
      | Some v =>
          call (ContentLength (filesBucket (outer self)) (compat_bytes (fileID self))) ;;;
          ret (object_content_length (outer self) (compat_bytes (fileID self)))
      | None => ret 0%Z
      end
  end.

End Methods.

(** ** Streaming: [uploadStream] and [downloadStream] *)

(** Modelled from the spec: MultiPartPipe (a WritablePipe) is not in this
    file.  The caller writes into it, a reader task drains it, and
    [reader_done] is set once that reader has run to completion. *)
Record MultiPartPipe : Type := {
  written : bytes;
  reader_done : bool
}.

Definition new_MultiPartPipe : MultiPartPipe := {| written := []; reader_done := false |}.

(** [uploadStream]: [scope] is the caller's [with] block together with the
    reader task, up to the point where the pipe has been closed; it tells
    how the block ended and in which state it left the pipe. *)
Definition uploadStream (self : AWSFile) (multipart allowInlining : bool)
    (scope : MultiPartPipe -> result unit * MultiPartPipe) : result unit * MultiPartPipe :=
  let pipe := new_MultiPartPipe in
  match scope pipe with
  | (Raise e, pipe) => (Raise e, pipe)
  | (Ok _, pipe) =>
      if negb (reader_done pipe)
      then (Raise (RuntimeError "Escaped context manager without written data being read!"), pipe)
      else (Ok tt, pipe)
  end.

(** What [HashingPipe.transform] does, step by step. *)
Inductive Event : Type :=
| Update (chunk : bytes)        (* hasher.update(contents) *)
| Forwarded (chunk : bytes)     (* writable.write(contents) went through *)
| ReaderGone                    (* writable.write(contents) raised BrokenPipeError *)
| Hexdigest (digest : string).  (* hasher.hexdigest() *)

(** The state of the transform: the bytes fed to the hasher, the writable
    end towards the consumer, and the steps taken. *)
Record Hashing : Type := {
  hasher : bytes;
  writable : Writable;
  events : list Event
}.

Inductive LoopExit : Type :=
| ReachedEOF
| Returned
| Propagated (e : exn).

(** The body of the [while] loop: [hasher.update(contents)], then
    [writable.write(contents)] under [except BrokenPipeError: return].
    [None] says that the loop goes on with the next read. *)
Definition loop_body (contents : bytes) (st : Hashing) : option LoopExit * Hashing :=
  let fed := hasher st ++ contents in
  match write contents (writable st) with
  | (Ok _, w) =>
      (None, {| hasher := fed; writable := w;
                events := events st ++ [Update contents; Forwarded contents] |})
  | (Raise BrokenPipeError, w) =>
      (Some Returned, {| hasher := fed; writable := w;
                         events := events st ++ [Update contents; ReaderGone] |})
  | (Raise e, w) =>
      (Some (Propagated e), {| hasher := fed; writable := w;
                               events := events st ++ [Update contents] |})
  end.

(** The [while contents != b'':] loop of [transform], entered with the
    chunk just read; each turn ends with the next [readable.read(size)]. *)
Equations? transform_loop (size : N) (contents readable : bytes) (st : Hashing)
    : LoopExit * Hashing by wf (length contents + length readable) lt :=
  transform_loop size [] readable st := (ReachedEOF, st);
  transform_loop size (x :: rest) readable st with loop_body (x :: rest) st := {
    | (Some exit, st') := (exit, st');
    | (None, st') :=
        transform_loop size (take_bytes size readable) (drop_bytes size readable) st' }.
Proof.
  assert (forall n (l : bytes), length (take_bytes n l) + length (drop_bytes n l) = length l)
    as Hsplit.
  { intros n l; revert n; induction l as [|y l IH]; intros n; simpl; [done|].
    destruct (N.eqb n 0); simpl; [done|]. by rewrite IH. }
  simpl. specialize (Hsplit size readable). lia.
Qed.

Definition CHUNK : N := (1024 * 1024)%N.

Definition add_event (e : Event) (st : Hashing) : Hashing :=
  {| hasher := hasher st; writable := writable st; events := events st ++ [e] |}.

Section Streams.
Context {R : Runtime}.

Definition DownloadPipe_writeTo (info : AWSFile) (w : Writable) : M Writable :=
  match content info with
  | Some data =>
      match write data w with
      | (Ok _, w') => ret w'
      | (Raise e, _) => raise e
      end
  | None =>
      match nonempty (version info) with
      | Some v =>
          let headerArgs := _s3EncryptionArgs info in
          call (DownloadFileobj (filesBucket (outer info)) (compat_bytes (fileID info)) v
                  headerArgs) ;;;
          match write (object_body (outer info) (compat_bytes (fileID info)) v) w with
          | (Ok _, w') => ret w'
          | (Raise e, _) => raise e
          end
      | None => raise AssertionError
      end
  end.

Definition HashingPipe_transform (info : AWSFile) (readable : bytes) (w : Writable)
    : result unit * Hashing :=
  let st := {| hasher := []; writable := w; events := [] |} in
  match checksum info with
  | None => (Raise (AttributeError "split"), st)
  | Some cs =>
      match split_checksum cs with
      | Raise e => (Raise e, st)
      | Ok (algorithm, _) =>
          match hashlib algorithm with
          | None => (Raise (AttributeError algorithm), st)
          | Some hexdigest =>
              let (contents, readable) := read CHUNK readable in
              match transform_loop CHUNK contents readable st with
              | (Returned, st) => (Ok tt, st)
              | (Propagated e, st) => (Raise e, st)
              | (ReachedEOF, st) =>
                  let result_hash := hexdigest (hasher st) in
                  let st := add_event (Hexdigest result_hash) st in
                  if negb (String.eqb (format_checksum algorithm result_hash) cs)
                  then (Raise (ChecksumError ""), st)
                  else (Ok tt, st)
              end
          end
      end
  end.

(** Modelled from the spec: ReadablePipe and ReadableTransformingPipe are
    not in this file.  A pipe runs its writer against its writable end;
    what the writer raised comes out when the scope of the pipe is left,
    except for the broken-transfer condition, which only stops the
    writer. *)
Definition pipe_exit (writer : result unit) : result unit :=
  match writer with
  | Raise BrokenPipeError => Ok tt
  | r => r
  end.

(** What the caller of [downloadStream] ends up with: the state of its end
    of the stream and how the scope was left. *)
Record Delivery : Type := {
  consumer : Writable;
  outcome : result unit;
  steps : list Event
}.

(** [downloadStream]: [reader] is the caller's end of the stream.  With
    verification the download pipe feeds the hashing pipe, which feeds the
    caller; without, the download pipe feeds the caller. *)
Definition downloadStream (self : AWSFile) (verifyChecksum : bool) (reader : Writable)
    : World -> Delivery * World :=
  fun world =>
    match (if verifyChecksum then nonempty (checksum self) else None) with
    | Some _ =>
        let '(r1, world) := DownloadPipe_writeTo self fresh_pipe world in
        let readable := match r1 with Ok p => received p | Raise _ => [] end in
        let '(r2, st) := HashingPipe_transform self readable reader in
        let downloaded := match r1 with Ok _ => Ok tt | Raise e => Raise e end in
        ({| consumer := writable st;
            outcome := match pipe_exit r2 with
                       | Raise e => Raise e
                       | Ok _ => pipe_exit downloaded
                       end;
            steps := events st |}, world)
    | None =>
        match DownloadPipe_writeTo self reader world with
        | (Ok w, world) => ({| consumer := w; outcome := Ok tt; steps := [] |}, world)
        | (Raise e, world) =>
            ({| consumer := reader; outcome := pipe_exit (Raise e); steps := [] |}, world)
        end
    end.

End Streams.

(** ** hashlib, for the concrete runs

    SHA-1 and SHA-256 over 32-bit words held in [Z], so that the scenarios
    below run on the digests Python computes. *)

Module Hashlib.

Definition w32 (x : Z) : Z := (x mod 2 ^ 32)%Z.
Definition rotr (n x : Z) : Z := Z.lor (Z.shiftr x n) (w32 (Z.shiftl x (32 - n))).
Definition rotl (n x : Z) : Z := rotr (32 - n) x.
Definition Ch (x y z : Z) : Z := Z.lxor (Z.land x y) (Z.land (Z.lnot x) z).
Definition Maj (x y z : Z) : Z := Z.lxor (Z.lxor (Z.land x y) (Z.land x z)) (Z.land y z).
Definition Parity (x y z : Z) : Z := Z.lxor (Z.lxor x y) z.
Definition Sigma0 (x : Z) : Z := Z.lxor (Z.lxor (rotr 2 x) (rotr 13 x)) (rotr 22 x).
Definition Sigma1 (x : Z) : Z := Z.lxor (Z.lxor (rotr 6 x) (rotr 11 x)) (rotr 25 x).
Definition sigma0 (x : Z) : Z := Z.lxor (Z.lxor (rotr 7 x) (rotr 18 x)) (Z.shiftr x 3).
Definition sigma1 (x : Z) : Z := Z.lxor (Z.lxor (rotr 17 x) (rotr 19 x)) (Z.shiftr x 10).

(** Padding: 0x80, zeros up to 56 modulo 64, the bit length on 8 bytes. *)
Definition be_bytes (n : nat) (x : Z) : list Z :=
  map (fun i => Z.land (Z.shiftr x (8 * Z.of_nat i)) 255) (rev (seq 0 n)).

Definition pad (msg : list Z) : list Z :=
  let len := Z.of_nat (length msg) in
  msg ++ [128%Z] ++ repeat 0%Z (Z.to_nat ((55 - len) mod 64)) ++ be_bytes 8 (8 * len).

Fixpoint words (n : nat) (bs : list Z) : list Z :=
  match n, bs with
  | S k, x3 :: x2 :: x1 :: x0 :: rest =>
      (Z.shiftl x3 24 + Z.shiftl x2 16 + Z.shiftl x1 8 + x0)%Z :: words k rest
  | _, _ => []
  end.

Fixpoint blocks (n : nat) (bs : list Z) : list (list Z) :=
  match n with
  | O => []
  | S k => firstn 64 bs :: blocks k (skipn 64 bs)
  end.

Definition hex_digit (d : Z) : ascii :=
  nth (Z.to_nat d) (list_ascii_of_string "0123456789abcdef") "0"%char.

Definition hex_word (x : Z) : string :=
  string_of_list_ascii
    (map (fun i => hex_digit (Z.land (Z.shiftr x (4 * Z.of_nat i)) 15)) (rev (seq 0 8))).

Definition to_hex (state : list Z) : string := String.concat "" (map hex_word state).

Definition octets (msg : bytes) : list Z := map (fun x => Z.of_N (Byte.to_N x)) msg.

(** The constants of SHA-256 by their definition in FIPS 180-4: the first
    32 bits of the fractional parts of the cube roots (round constants) and
    of the square roots (initial state) of the first primes. *)
Definition is_prime (n : nat) : bool :=
  forallb (fun d => negb (Nat.eqb (n mod d) 0)) (seq 2 (n - 2)).

Definition primes (count : nat) : list Z :=
  map Z.of_nat (firstn count (List.filter is_prime (seq 2 310))).

(** The integer cube root, one bit at a time from [bit] down. *)
Fixpoint cube_root_from (bit : nat) (n r : Z) : Z :=
  let candidate := (r + 2 ^ Z.of_nat bit)%Z in
  let r := if (candidate * candidate * candidate <=? n)%Z then candidate else r in
  match bit with
  | O => r
  | S lower => cube_root_from lower n r
  end.

Definition K256 : list Z :=
  map (fun p => w32 (cube_root_from 40 (p * 2 ^ 96) 0)) (primes 64).

Definition H256 : list Z :=
  map (fun p => w32 (Z.sqrt (p * 2 ^ 64))) (primes 8).

Fixpoint schedule256 (n : nat) (w : list Z) : list Z :=
  match n with
  | O => w
  | S k =>
      let back i := nth (length w - i) w 0%Z in
      schedule256 k (w ++ [w32 (sigma1 (back 2) + back 7 + sigma0 (back 15) + back 16)])
  end.

Definition round256 (s : list Z) (kw : Z * Z) : list Z :=
  match s with
  | [a0; b0; c0; d0; e0; f0; g0; h0] =>
      let t1 := (h0 + Sigma1 e0 + Ch e0 f0 g0 + fst kw + snd kw)%Z in
      let t2 := (Sigma0 a0 + Maj a0 b0 c0)%Z in
      [w32 (t1 + t2); a0; b0; c0; w32 (d0 + t1); e0; f0; g0]
  | _ => s
  end.

Definition compress256 (h : list Z) (block : list Z) : list Z :=
  let w := schedule256 48 (words 16 block) in
  map (fun p => w32 (fst p + snd p)) (combine h (fold_left round256 (combine K256 w) h)).

Definition sha256 (msg : bytes) : string :=
  let p := pad (octets msg) in
  to_hex (fold_left compress256 (blocks (length p / 64) p) H256).

Definition H1 : list Z := [0x67452301; 0xefcdab89; 0x98badcfe; 0x10325476; 0xc3d2e1f0]%Z.

Fixpoint schedule1 (n : nat) (w : list Z) : list Z :=
  match n with
  | O => w
  | S k =>
      let back i := nth (length w - i) w 0%Z in
      schedule1 k (w ++ [rotl 1 (Z.lxor (Z.lxor (back 3) (back 8)) (Z.lxor (back 14) (back 16)))])
  end.

Definition round1 (s : list Z) (tw : nat * Z) : list Z :=
  match s with
  | [a0; b0; c0; d0; e0] =>
      let t := fst tw in
      let '(f, k) :=
        if Nat.ltb t 20 then (Ch b0 c0 d0, 0x5a827999%Z)
        else if Nat.ltb t 40 then (Parity b0 c0 d0, 0x6ed9eba1%Z)
        else if Nat.ltb t 60 then (Maj b0 c0 d0, 0x8f1bbcdc%Z)
        else (Parity b0 c0 d0, 0xca62c1d6%Z) in
      [w32 (rotl 5 a0 + f + e0 + k + snd tw); a0; rotl 30 b0; c0; d0]
  | _ => s
  end.

Definition compress1 (h : list Z) (block : list Z) : list Z :=
  let w := schedule1 64 (words 16 block) in
  map (fun p => w32 (fst p + snd p)) (combine h (fold_left round1 (combine (seq 0 80) w) h)).

Definition sha1 (msg : bytes) : string :=
  let p := pad (octets msg) in
  to_hex (fold_left compress1 (blocks (length p / 64) p) H1).

End Hashlib.

(** A runtime to run the scenarios on: hashlib with [sha1] and [sha256],
    ['sha1'] as the default algorithm, a temporary file next to the
    destination, SSE-C headers for encrypted files. *)
Definition python : Runtime := {|
  hashlib := fun algorithm =>
    if String.eqb algorithm "sha256" then Some Hashlib.sha256
    else if String.eqb algorithm "sha1" then Some Hashlib.sha1
    else None;
  default_algorithm := "sha1";
  atomic_tmp_file := fun final_path => final_path +:+ ".tmp";
  _s3EncryptionArgs := fun self =>
    if encrypted self then [("SSECustomerAlgorithm", "AES256")] else [];
  _getSSEKey := fun self => None
|}.

(** The calls a method issues when run in a world. *)
Definition issued_by {A} (m : M A) (w : World) : list Call :=
  skipn (length (calls w)) (calls (snd (m w))).

Definition is_DeleteAttributes (c : Call) : bool :=
  match c with DeleteAttributes _ _ => true | _ => false end.

Definition is_DeleteObject (c : Call) : bool :=
  match c with DeleteObject _ _ _ => true | _ => false end.

Definition count_calls (p : Call -> bool) (cs : list Call) : nat :=
  length (List.filter p cs).

(** The checksum of a file is at odds with the bytes [data] when it names
    an algorithm hashlib knows and the digest of [data] under it gives
    another checksum string. *)
Definition disagrees {R : Runtime} (cs : string) (data : bytes) : Prop :=
  exists algorithm digest hexdigest,
    split_checksum cs = Ok (algorithm, digest) /\
    hashlib algorithm = Some hexdigest /\
    format_checksum algorithm (hexdigest data) <> cs.

(** ** Scenarios *)

Definition hello_checksum : string :=
  "sha256$2cf24dba5fb0a30e26e83b2ac5b9e29e1b161e5c1fa7425e73043362938b9824".

(** A job store whose bucket answers every download with [body]. *)
Definition store_returning (body : bytes) : Outer := {|
  region := "us-west-2";
  filesBucket := "toil-files";
  partSize := 52428800;
  object_body := fun _ _ => body;
  object_content_length := fun _ => Z.of_nat (length body);
  domain_version := fun item_name =>
    if String.eqb item_name "file-1" then Some "v1"
    else if String.eqb item_name "file-2" then Some ""
    else None;
  uploaded_version := fun _ _ => "v2"
|}.

(** A record stored in S3 under version [v1], with the checksum of [hello]. *)
Definition remote_record (body : bytes) : AWSFile := {|
  fileID := "file-1"; ownerID := "job-1"; encrypted := false;
  content := None; numContentChunks := 0;
  checksum := Some hello_checksum; sseKeyPath := None;
  version := Some "v1"; previousVersion := Some "v1";
  outer := store_returning body
|}.

(** An inlined record: [version] and [previousVersion] are the empty string. *)
Definition inline_record (data : bytes) (cs : option string) : AWSFile := {|
  fileID := "file-2"; ownerID := "job-1"; encrypted := false;
  content := Some data; numContentChunks := 1;
  checksum := cs; sseKeyPath := None;
  version := Some ""; previousVersion := Some "";
  outer := store_returning []
|}.

(** A new record: no content, no version. *)
Definition new_record : AWSFile := {|
  fileID := "file-3"; ownerID := "job-1"; encrypted := false;
  content := None; numContentChunks := 0;
  checksum := None; sseKeyPath := None;
  version := None; previousVersion := None;
  outer := store_returning []
|}.

(** A record loaded when the domain held [v0]; it holds [v1] by now. *)
Definition stale_record : AWSFile := {|
  fileID := "file-1"; ownerID := "job-1"; encrypted := false;
  content := None; numContentChunks := 0;
  checksum := None; sseKeyPath := None;
  version := Some "v0"; previousVersion := Some "v0";
  outer := store_returning []
|}.

Definition empty_world : World := {| files := ∅; calls := [] |}.

Definition world_with (path : string) (data : bytes) : World :=
  {| files := {[ path := data ]}; calls := [] |}.

(** ** [copyFrom] *)

(** The [S3.Object] handed to [copyFrom], with what S3 answers for it:
    the declared [content_length] ([None] when S3 gives none) and the bytes
    [get()['Body'].read()] returns. *)
Module SrcObj.
Record t : Type := {
  bucket_name : string;
  key : string;
  version_id : string;
  content_length : option Z;
  body : bytes
}.
End SrcObj.

(** The requests [copyFrom] sends. *)
Inductive Request : Type :=
| GetObject (bucket key : string)
| CopyKeyMultipartTo (srcBucketName srcKeyName srcKeyVersion dstBucketName dstKeyName : string)
                     (sseAlgorithm : string) (sseKey : option bytes).

(** What [copyFrom] uses and the file does not define: the attribute
    [_fileID] it names the destination key with, and the version
    copyKeyMultipart returns for a copy. *)
Class CopyService : Type := {
  _fileID : AWSFile -> string;
  copied_version : Request -> string
}.

Definition set_content (c : option bytes) (self : AWSFile) : AWSFile :=
  {| fileID := fileID self; ownerID := ownerID self; encrypted := encrypted self;
     content := c; numContentChunks := numContentChunks self;
     checksum := checksum self; sseKeyPath := sseKeyPath self; version := version self;
     previousVersion := previousVersion self; outer := outer self |}.

(** [copyFrom]: the record after the call and the requests sent. *)
Definition copyFrom {R : Runtime} {C : CopyService} (self : AWSFile) (srcObj : SrcObj.t)
    : result AWSFile * list Request :=
  match SrcObj.content_length srcObj with
  | None => (Raise AssertionError, [])
  | Some n =>
      if (n <=? 256)%Z
      then (Ok (set_content (Some (SrcObj.body srcObj)) self),
            [GetObject (SrcObj.bucket_name srcObj) (SrcObj.key srcObj)])
      else
        let request :=
          CopyKeyMultipartTo (compat_bytes (SrcObj.bucket_name srcObj))
            (compat_bytes (SrcObj.key srcObj)) (compat_bytes (SrcObj.version_id srcObj))
            (compat_bytes (filesBucket (outer self))) (compat_bytes (_fileID self))
            "AES256" (_getSSEKey self) in
        (Ok (set_version (Some (copied_version request)) self), [request])
  end.

(** The bytes a record stands for, as every reading method takes them: the
    inlined content when there is one, else what S3 delivers for a
    non-empty [version]. *)
Definition stored_bytes (self : AWSFile) : option bytes :=
  match content self with
  | Some data => Some data
  | None =>
      match nonempty (version self) with
      | Some v => Some (object_body (outer self) (compat_bytes (fileID self)) v)
      | None => None
      end
  end.

(** A copy service to run the scenarios on. *)
Definition copies : CopyService := {|
  _fileID := fileID;
  copied_version := fun _ => "v3"
|}.

Definition small_source : SrcObj.t := {|
  SrcObj.bucket_name := "src"; SrcObj.key := "k"; SrcObj.version_id := "s1";
  SrcObj.content_length := Some 5%Z; SrcObj.body := b "hello"
|}.

Definition large_source : SrcObj.t := {|
  SrcObj.bucket_name := "src"; SrcObj.key := "k"; SrcObj.version_id := "s1";
  SrcObj.content_length := Some 257%Z; SrcObj.body := []
|}.

(** A new record in a job store whose bucket answers with [body]. *)
Definition new_record_on (body : bytes) : AWSFile := {|
  fileID := "file-4"; ownerID := "job-1"; encrypted := false;
  content := None; numContentChunks := 0;
  checksum := None; sseKeyPath := None;
  version := None; previousVersion := None;
  outer := store_returning body
|}.

(** * Properties *)

Example K256_ends :
  hd 0%Z Hashlib.K256 = 0x428a2f98%Z /\ last Hashlib.K256 = Some 0xc67178f2%Z
  /\ length Hashlib.K256 = 64.
Proof. vm_compute. repeat split; reflexivity. Qed.

Example sha256_hello :
  Hashlib.sha256 (b "hello") = "2cf24dba5fb0a30e26e83b2ac5b9e29e1b161e5c1fa7425e73043362938b9824".
Proof. vm_compute. reflexivity. Qed.

Example sha256_hellx :
  Hashlib.sha256 (b "hellx") = "0b6179b38a9702b3e6b715188031623d09cdc4d173c6acfee273210ea281e1a8".
Proof. vm_compute. reflexivity. Qed.

Example sha256_two_blocks :
  Hashlib.sha256 (b "abcdbcdecdefdefgefghfghighijhijkijkljklmklmnlmnomnopnopq")
  = "248d6a61d20638b8e5c026930c3e6039a33ce45964ff2167f6ecedd419db06c1".
Proof. vm_compute. reflexivity. Qed.

Example sha1_hello :
  Hashlib.sha1 (b "hello") = "aaf4c61ddcc5e8a2dabede0f3b482cd9aea9434d".
Proof. vm_compute. reflexivity. Qed.

Example sha1_two_blocks :
  Hashlib.sha1 (b "abcdbcdecdefdefgefghfghighijhijkijkljklmklmnlmnomnopnopq")
  = "84983e441c3bd26ebaae4aa1f95129e5e54670f1".
Proof. vm_compute. reflexivity. Qed.

(** ** Taking a checksum string apart *)

Lemma split_nonempty (sep : ascii) (s : string) : split sep s <> [].
Proof.
  destruct s as [|c rest]; simpl; [done|].
  destruct (Ascii.eqb c sep); [done|]. by destruct (split sep rest).
Qed.

Lemma split_length (sep : ascii) (s : string) :
  length (split sep s) = S (count_char sep s).
Proof.
  induction s as [|c rest IH]; simpl; [done|].
  destruct (Ascii.eqb c sep); simpl; [by rewrite IH|].
  destruct (split sep rest) as [|h t] eqn:E; [by apply split_nonempty in E|].
  simpl in *. lia.
Qed.

(** Joining the parts with the separator gives the string back. *)
Lemma split_join (sep : ascii) (s : string) :
  String.concat (String sep "") (split sep s) = s.
Proof.
  induction s as [|c rest IH]; simpl; [done|].
  destruct (Ascii.eqb c sep) eqn:Ec.
  - apply Ascii.eqb_eq in Ec; subst c.
    destruct (split sep rest) as [|h t] eqn:E; [by apply split_nonempty in E|].
    simpl. simpl in IH. by rewrite IH.
  - destruct (split sep rest) as [|h t] eqn:E; [by apply split_nonempty in E|].
    simpl in *. destruct t; simpl in *; by rewrite <- IH.
Qed.

(** No part contains the separator. *)
Lemma split_parts_clean (sep : ascii) (s : string) :
  Forall (fun part => count_char sep part = 0) (split sep s).
Proof.
  induction s as [|c rest IH]; simpl; [by repeat constructor|].
  destruct (Ascii.eqb c sep) eqn:Ec; [by constructor|].
  destruct (split sep rest) as [|h t] eqn:E; [by apply split_nonempty in E|].
  inversion IH; subst. constructor; [|done]. simpl. by rewrite Ec.
Qed.

(** C6, as the code has it: [checksum.split('$')] splits at every ['$'] and
    the result is unpacked into two names.  A string with exactly one ['$']
    parses into what stands before and after it; a string without ['$'] and
    a string with more than one ['$'] both fail with the [ValueError] of the
    unpacking (MalformedChecksum). *)
Theorem split_checksum_spec (cs : string) :
  match count_char "$" cs with
  | 0 => split_checksum cs
         = Raise (ValueError "not enough values to unpack (expected 2, got 1)")
  | 1 => exists algorithm digest,
           split_checksum cs = Ok (algorithm, digest) /\
           cs = format_checksum algorithm digest /\
           count_char "$" algorithm = 0 /\ count_char "$" digest = 0
  | _ => split_checksum cs = Raise (ValueError "too many values to unpack (expected 2)")
  end.
Proof.
  unfold split_checksum.
  pose proof (split_length "$" cs) as Hlen.
  pose proof (split_join "$" cs) as Hjoin.
  pose proof (split_parts_clean "$" cs) as Hclean.
  destruct (count_char "$" cs) as [|[|n]];
    destruct (split "$" cs) as [|x [|y [|z t]]]; simpl in Hlen; try lia; try done.
  exists x, y. split; [done|]. split.
  - unfold format_checksum. simpl in Hjoin. by rewrite Hjoin.
  - inversion Hclean as [|? ? Hx Hrest]. by inversion Hrest.
Qed.

(** C6, as stated, fails: a checksum whose digest part contains ['$'] does
    not parse with the text before the first ['$'] as the algorithm; the
    unpacking raises. *)
Lemma split_checksum_second_dollar :
  split_checksum "sha256$ab$cd" = Raise (ValueError "too many values to unpack (expected 2)")
  /\ split_checksum "sha256$ab$cd" <> Ok ("sha256", "ab$cd").
Proof. split; [reflexivity | discriminate]. Qed.

(** ** Calls issued by [delete], [copyTo] and [getSize] *)

Lemma nonempty_Some (v : option string) (s : string) :
  nonempty v = Some s <-> v = Some s /\ s <> "".
Proof.
  destruct v as [x|]; simpl; [|intuition congruence].
  destruct (String.eqb_spec x ""); intuition congruence.
Qed.

Lemma nonempty_None (v : option string) :
  nonempty v = None <-> v = None \/ v = Some "".
Proof.
  destruct v as [x|]; simpl; [|intuition congruence].
  destruct (String.eqb_spec x ""); intuition congruence.
Qed.

Lemma skipn_calls (l k : list Call) : skipn (length l) (l ++ k) = k.
Proof. apply drop_app_length. Qed.

Lemma skipn_calls2 (l : list Call) (c1 c2 : Call) :
  skipn (length l) ((l ++ [c1]) ++ [c2]) = [c1; c2].
Proof. rewrite <- app_assoc. apply drop_app_length. Qed.

Lemma skipn_calls0 (l : list Call) : skipn (length l) l = [].
Proof. apply drop_all. Qed.

Section Calls.
Context {R : Runtime}.

(** What [delete] does: its result and the calls it issues, by
    [previousVersion] and by what the files domain holds for the record. *)
Lemma delete_run (self : AWSFile) (w : World) :
  fst (delete self w) =
    match previousVersion self with
    | None => Ok tt
    | Some pv =>
        if domain_holds (outer self) (fileID self) pv then Ok tt
        else Raise (SDBResponseError "ConditionalCheckFailed")
    end /\
  files (snd (delete self w)) = files w /\
  issued_by (delete self) w =
    match previousVersion self with
    | None => []
    | Some pv =>
        DeleteAttributes (fileID self) ("version", pv) ::
        (if domain_holds (outer self) (fileID self) pv && negb (String.eqb pv "")
         then [DeleteObject (filesBucket (outer self)) (fileID self) pv]
         else [])
    end.
Proof.
  unfold issued_by, delete, delete_attributes, domain_holds, bind, call, ret, raise,
    compat_bytes.
  destruct (previousVersion self) as [pv|]; simpl; [|by rewrite skipn_calls0].
  destruct (domain_version (outer self) (fileID self)) as [held|]; simpl;
    [|by rewrite skipn_calls].
  destruct (String.eqb held pv); simpl; [|by rewrite skipn_calls].
  destruct (String.eqb pv ""); simpl; [rewrite skipn_calls | rewrite skipn_calls2]; done.
Qed.

Lemma domain_holds_spec (o : Outer) (item_name pv : string) :
  domain_holds o item_name pv = true <-> domain_version o item_name = Some pv.
Proof.
  unfold domain_holds. destruct (domain_version o item_name) as [held|]; [|done].
  destruct (String.eqb_spec held pv); split; congruence.
Qed.

(** C3, as the code has it: [delete] issues the conditional delete of the
    metadata record, expecting [previousVersion], exactly when
    [previousVersion] is not [None].  It goes on to one delete of the
    versioned S3 object exactly when [previousVersion] is a non-empty
    string and the conditional delete went through, that is, when the
    files domain still holds [previousVersion]; when it does not, [delete]
    fails with the error of the domain and S3 is not called.  For an
    inlined record ([previousVersion = ""]) the metadata delete is the only
    call; for [previousVersion = None] there is no call at all. *)
Theorem delete_issues (self : AWSFile) (w : World) :
  let cs := issued_by (delete self) w in
  let held := domain_version (outer self) (fileID self) in
  (forall pv, In (DeleteAttributes (compat_bytes (fileID self)) ("version", pv)) cs
              <-> previousVersion self = Some pv) /\
  (count_calls is_DeleteAttributes cs = 1 <-> previousVersion self <> None) /\
  (count_calls is_DeleteAttributes cs = 0 <-> previousVersion self = None) /\
  (count_calls is_DeleteObject cs = 1
     <-> exists pv, previousVersion self = Some pv /\ pv <> "" /\ held = Some pv) /\
  (count_calls is_DeleteObject cs = 0
     <-> ~ exists pv, previousVersion self = Some pv /\ pv <> "" /\ held = Some pv) /\
  (forall pv, In (DeleteObject (filesBucket (outer self)) (compat_bytes (fileID self)) pv) cs
              <-> previousVersion self = Some pv /\ pv <> "" /\ held = Some pv) /\
  (fst (delete self w) = Ok tt
     <-> previousVersion self = None \/ previousVersion self = held) /\
  (fst (delete self w) = Raise (SDBResponseError "ConditionalCheckFailed")
     <-> exists pv, previousVersion self = Some pv /\ held <> Some pv) /\
  (previousVersion self = Some "" <->
     cs = [DeleteAttributes (compat_bytes (fileID self)) ("version", "")]) /\
  (previousVersion self = None <-> cs = []).
Proof.
  intros cs held. destruct (delete_run self w) as (Hres & _ & Hcs).
  fold cs in Hcs. unfold compat_bytes. rewrite Hcs, Hres. clear Hcs Hres cs.
  pose proof (domain_holds_spec (outer self) (fileID self)) as Hholds. fold held in Hholds.
  destruct (previousVersion self) as [pv|]; [|simpl; naive_solver].
  specialize (Hholds pv).
  destruct (domain_holds (outer self) (fileID self) pv);
    destruct (String.eqb_spec pv "") as [->|Hne]; unfold count_calls; simpl.
  - assert (held = Some "") as -> by by apply Hholds. repeat split; naive_solver.
  - assert (held = Some pv) as -> by by apply Hholds. repeat split; naive_solver.
  - assert (held <> Some "") as Hnot by (intros E; apply Hholds in E; discriminate).
    repeat split; naive_solver.
  - assert (held <> Some pv) as Hnot by (intros E; apply Hholds in E; discriminate).
    repeat split; naive_solver.
Qed.

(** C3, as stated, fails when the conditional delete does: the record was
    loaded at [v0], a non-empty version, and the files domain holds [v1] by
    now; [delete] issues the metadata delete, fails, and issues no delete
    of the S3 object. *)
Lemma delete_conditional_mismatch :
  let cs := issued_by (delete stale_record) empty_world in
  previousVersion stale_record = Some "v0" /\
  domain_version (outer stale_record) (fileID stale_record) = Some "v1" /\
  cs = [DeleteAttributes "file-1" ("version", "v0")] /\
  count_calls is_DeleteObject cs = 0 /\
  fst (delete stale_record empty_world) = Raise (SDBResponseError "ConditionalCheckFailed").
Proof. repeat split; reflexivity. Qed.

(** C9: [getSize] never raises; it is the length of the inlined content
    when there is one (0 for an inlined empty byte string), else the
    content length S3 declares for the object stored under [fileID] when
    [version] is a non-empty string, else 0.  The lookup names the key and
    no version: which non-empty version the record carries makes no
    difference to the answer. *)
Theorem getSize_value (self : AWSFile) (w : World) :
  fst (getSize self w) =
    Ok (match content self with
        | Some data => Z.of_nat (length data)
        | None =>
            match version self with
            | Some v =>
                if String.eqb v "" then 0%Z
                else object_content_length (outer self) (fileID self)
            | None => 0%Z
            end
        end)
  /\ (forall e, fst (getSize self w) <> Raise e)
  /\ (content self = Some [] <-> content self <> None /\ fst (getSize self w) = Ok 0%Z
                                  /\ issued_by (getSize self) w = [])
  /\ files (snd (getSize self w)) = files w
  /\ (forall c1 v1 c2 v2,
        getSize (set_version (Some (String c1 v1)) self) w
        = getSize (set_version (Some (String c2 v2)) self) w).
Proof.
  unfold getSize, issued_by, bind, call, ret, compat_bytes.
  destruct (content self) as [data|]; simpl.
  - rewrite skipn_calls0. split; [done|]. split; [done|]. split; [|done]. split.
    + by intros [= ->].
    + intros (_ & [= Hlen] & _). destruct data; [done | discriminate].
  - assert (forall P : Prop, @None bytes = Some [] <-> @None bytes <> None /\ P) as Hno
      by (intros P; split; [done | by intros [? _]]).
    destruct (version self) as [v|]; simpl; [destruct (String.eqb v ""); simpl|];
      (split; [done|]; split; [done|]; split; [apply Hno | done]).
Qed.

(** C8: [copyTo] on a record with neither inlined content nor a version
    fails its assertion (EmptyOrCorruptRecord) without a call; with inlined
    content it puts those bytes at the destination; with no inlined content
    and a version it issues the server-side copy from that version. *)
Theorem copyTo_cases (self : AWSFile) (dstObj : S3Object) (w : World) :
  (content self = None -> nonempty (version self) = None ->
     copyTo self dstObj w = (Raise AssertionError, w)) /\
  (forall data, content self = Some data ->
     fst (copyTo self dstObj w) = Ok tt /\
     issued_by (copyTo self dstObj) w = [PutObject (bucket_name dstObj) (key dstObj) data]) /\
  (forall v, content self = None -> version self = Some v -> v <> "" ->
     fst (copyTo self dstObj w) = Ok tt /\
     issued_by (copyTo self dstObj) w =
       [CopyKeyMultipart (filesBucket (outer self)) (fileID self) v
          (bucket_name dstObj) (key dstObj) "AES256" (_getSSEKey self)]).
Proof.
  unfold copyTo, issued_by, bind, call, ret, raise, compat_bytes.
  split; [|split].
  - by intros -> ->.
  - intros data ->. simpl. by rewrite skipn_calls.
  - intros v -> Hv Hne.
    assert (nonempty (version self) = Some v) as -> by by apply nonempty_Some.
    simpl. by rewrite skipn_calls.
Qed.

End Calls.

Lemma copyTo_cases_witness :
  copyTo (R := python) new_record {| bucket_name := "dst"; key := "k" |} empty_world
    = (Raise AssertionError, empty_world)
  /\ issued_by (copyTo (R := python) (inline_record (b "hello") None)
                  {| bucket_name := "dst"; key := "k" |}) empty_world
     = [PutObject "dst" "k" (b "hello")]
  /\ issued_by (copyTo (R := python) (remote_record (b "hello"))
                  {| bucket_name := "dst"; key := "k" |}) empty_world
     = [CopyKeyMultipart "toil-files" "file-1" "v1" "dst" "k" "AES256" None].
Proof.
  split; [|split].
  - apply (proj1 (copyTo_cases (R := python) new_record _ empty_world)); reflexivity.
  - apply (proj1 (proj2 (copyTo_cases (R := python) (inline_record (b "hello") None)
                           {| bucket_name := "dst"; key := "k" |} empty_world))
             (b "hello")).
    reflexivity.
  - apply (proj2 (proj2 (copyTo_cases (R := python) (remote_record (b "hello"))
                           {| bucket_name := "dst"; key := "k" |} empty_world))
             "v1"); [reflexivity | reflexivity | discriminate].
Defined.

(** ** The hashing loop *)

Lemma take_drop_bytes (size : N) (data : bytes) :
  take_bytes size data ++ drop_bytes size data = data.
Proof.
  revert size; induction data as [|x rest IH]; intros size; simpl; [done|].
  destruct (N.eqb size 0); simpl; [done|]. by rewrite IH.
Qed.

Lemma take_bytes_nil (size : N) (data : bytes) :
  (0 < size)%N -> take_bytes size data = [] -> data = [].
Proof.
  intros Hpos. destruct data as [|x rest]; simpl; [done|].
  destruct (N.eqb_spec size 0); [lia | done].
Qed.

Lemma take_bytes_all (size : N) (data : bytes) :
  (N.of_nat (length data) <= size)%N -> take_bytes size data = data /\ drop_bytes size data = [].
Proof.
  revert size; induction data as [|x rest IH]; intros size Hle; simpl; [done|].
  simpl in Hle. destruct (N.eqb_spec size 0); [lia|].
  destruct (IH (N.pred size)) as [-> ->]; [lia | done].
Qed.

(** [write] only ever fails with [BrokenPipeError], and then leaves the
    pipe as it was. *)
Lemma write_cases (data : bytes) (w : Writable) :
  (accepts w = Some 0 /\ write data w = (Raise BrokenPipeError, w)) \/
  (accepts w <> Some 0 /\
   write data w = (Ok tt, {| received := received w ++ data;
                             accepts := pred <$> accepts w |})).
Proof.
  unfold write. destruct (accepts w) as [[|k]|]; simpl; [left | right | right]; done.
Qed.

(** The loop body either finds the reader gone and returns, or forwards
    the chunk and goes on; it never lets an exception through. *)
Lemma loop_body_cases (contents : bytes) (st : Hashing) :
  (accepts (writable st) = Some 0 /\
   loop_body contents st =
     (Some Returned, {| hasher := hasher st ++ contents; writable := writable st;
                        events := events st ++ [Update contents; ReaderGone] |})) \/
  (accepts (writable st) <> Some 0 /\
   loop_body contents st =
     (None, {| hasher := hasher st ++ contents;
               writable := {| received := received (writable st) ++ contents;
                              accepts := pred <$> accepts (writable st) |};
               events := events st ++ [Update contents; Forwarded contents] |})).
Proof.
  unfold loop_body.
  destruct (write_cases contents (writable st)) as [[Ha ->]|[Ha ->]]; [left | right]; done.
Qed.

(** The steps the loop adds: no [Hexdigest]; [ReaderGone] exactly when the
    loop is left by [return]. *)
Lemma loop_trace (size : N) (contents readable : bytes) (st : Hashing) :
  exists evs,
    events (snd (transform_loop size contents readable st)) = events st ++ evs /\
    (forall d, ~ In (Hexdigest d) evs) /\
    (In ReaderGone evs <-> fst (transform_loop size contents readable st) = Returned) /\
    (forall e, fst (transform_loop size contents readable st) <> Propagated e).
Proof.
  funelim (transform_loop size contents readable st).
  - exists []. simpl. rewrite app_nil_r. repeat split; try done. by intros _ [].
  - simpl.
    destruct (loop_body_cases (x :: rest) st) as [[_ Hb]|[_ Hb]];
      rewrite Hb in Heq; inversion Heq; subst; clear Heq.
    exists [Update (x :: rest); ReaderGone]. simpl.
    repeat split; try done; try tauto. intros d [|[|]]; done.
  - destruct (loop_body_cases (x :: rest) st) as [[_ Hb]|[_ Hb]];
      rewrite Hb in Heq; inversion Heq; subst; clear Heq.
    destruct H as (evs & Hev & Hno & Hgone & Hprop). simpl in Hev.
    exists ([Update (x :: rest); Forwarded (x :: rest)] ++ evs).
    split; [by rewrite Hev, <- app_assoc|].
    split; [intros d [|[|]]; try done; by apply (Hno d)|].
    split; [|done].
    rewrite <- Hgone. simpl. split; [intros [|[|]]; done | tauto].
Qed.

(** With a reader that stays until end-of-stream the loop runs to EOF: every
    byte has gone through the hasher and to the reader, in order. *)
Lemma loop_to_eof (size : N) (contents readable : bytes) (st : Hashing) :
  (0 < size)%N ->
  accepts (writable st) = None ->
  (contents = [] -> readable = []) ->
  fst (transform_loop size contents readable st) = ReachedEOF /\
  hasher (snd (transform_loop size contents readable st))
    = hasher st ++ contents ++ readable /\
  writable (snd (transform_loop size contents readable st))
    = {| received := received (writable st) ++ contents ++ readable; accepts := None |}.
Proof.
  funelim (transform_loop size contents readable st); intros Hpos Hopen Hlast.
  - rewrite (Hlast eq_refl). simpl. rewrite !app_nil_r.
    destruct (writable st) as [got acc]; simpl in *. by subst acc.
  - destruct (loop_body_cases (x :: rest) st) as [[Ha _]|[_ Hb]]; [congruence|].
    rewrite Hb in Heq. discriminate.
  - destruct (loop_body_cases (x :: rest) st) as [[Ha _]|[_ Hb]]; [congruence|].
    rewrite Hb in Heq. inversion Heq; subst st'; clear Heq.
    destruct H as (Hexit & Hhash & Hw); [done | by simpl; rewrite Hopen | |].
    { intros Hnil. apply take_bytes_nil in Hnil as ->; [|done].
      by destruct (N.eqb size 0). }
    simpl in Hhash, Hw.
    rewrite Hexit, Hhash, Hw, <- !app_assoc, take_drop_bytes. done.
Qed.

Lemma CHUNK_pos : (0 < CHUNK)%N.
Proof. done. Qed.

Lemma split_checksum_nonempty (cs : string) (parts : string * string) :
  split_checksum cs = Ok parts -> nonempty (Some cs) = Some cs.
Proof.
  intros Hsplit. simpl. destruct (String.eqb_spec cs "") as [->|]; [discriminate | done].
Qed.

Section Transform.
Context {R : Runtime}.

(** The transform in front of a reader that stays to the end: the reader
    gets every byte of the source, [hexdigest] is the last step, and the
    result is the comparison of the two checksum strings. *)
Lemma transform_to_eof (info : AWSFile) (readable : bytes) (w : Writable)
    (cs algorithm digest : string) (hexdigest : bytes -> string) :
  checksum info = Some cs ->
  split_checksum cs = Ok (algorithm, digest) ->
  hashlib algorithm = Some hexdigest ->
  accepts w = None ->
  fst (HashingPipe_transform info readable w)
    = (if String.eqb (format_checksum algorithm (hexdigest readable)) cs
       then Ok tt else Raise (ChecksumError "")) /\
  writable (snd (HashingPipe_transform info readable w))
    = {| received := received w ++ readable; accepts := None |} /\
  exists evs, events (snd (HashingPipe_transform info readable w))
              = evs ++ [Hexdigest (hexdigest readable)].
Proof.
  intros Hcs Hsplit Hhash Hopen. unfold HashingPipe_transform, read.
  rewrite Hcs, Hsplit, Hhash.
  set (st := {| hasher := []; writable := w; events := [] |}).
  destruct (loop_to_eof CHUNK (take_bytes CHUNK readable) (drop_bytes CHUNK readable) st)
    as (Hexit & Hfed & Hw); [apply CHUNK_pos | done | |].
  { intros Hnil. apply take_bytes_nil in Hnil as ->; [done | apply CHUNK_pos]. }
  rewrite take_drop_bytes in Hfed, Hw. simpl in Hfed, Hw.
  destruct (transform_loop CHUNK _ _ st) as [exit st'] eqn:Hloop. simpl in *. subst exit.
  rewrite Hfed.
  destruct (String.eqb _ cs); simpl; (split; [done|]; split; [done|]); by eexists.
Qed.

(** A return on [BrokenPipeError] is silent and skips the digest. *)
Lemma transform_silent (info : AWSFile) (readable : bytes) (w : Writable) :
  In ReaderGone (events (snd (HashingPipe_transform info readable w))) ->
  fst (HashingPipe_transform info readable w) = Ok tt /\
  (forall d, ~ In (Hexdigest d) (events (snd (HashingPipe_transform info readable w)))).
Proof.
  unfold HashingPipe_transform, read.
  destruct (checksum info) as [cs|]; [|by intros []].
  destruct (split_checksum cs) as [[algorithm digest]|e]; [|by intros []].
  destruct (hashlib algorithm) as [hexdigest|]; [|by intros []].
  set (st := {| hasher := []; writable := w; events := [] |}).
  destruct (loop_trace CHUNK (take_bytes CHUNK readable) (drop_bytes CHUNK readable) st)
    as (evs & Hev & Hno & Hgone & Hprop).
  destruct (transform_loop CHUNK _ _ st) as [exit st'] eqn:Hloop. simpl in *.
  destruct exit as [| |e].
  - intros Hin. exfalso.
    assert (In ReaderGone evs) as Hin'.
    { destruct (String.eqb _ cs); simpl in Hin; rewrite Hev in Hin;
        apply in_app_or in Hin as [Hin|[Hin|[]]]; done. }
    by apply Hgone in Hin'.
  - intros _. simpl. rewrite Hev. repeat split; done.
  - by destruct (Hprop e).
Qed.

(** An empty source gives the transform nothing to forward. *)
Lemma transform_empty_source (info : AWSFile) (w : Writable) :
  ~ In ReaderGone (events (snd (HashingPipe_transform info [] w))).
Proof.
  unfold HashingPipe_transform, read.
  destruct (checksum info) as [cs|]; [|by intros []].
  destruct (split_checksum cs) as [[algorithm digest]|e]; [|by intros []].
  destruct (hashlib algorithm) as [hexdigest|]; [|by intros []].
  simpl. simp transform_loop.
  destruct (negb _); simpl; by intros [|[]].
Qed.

(** C5: when a forwarding write of the transform fails because the reader
    has closed its end, the transform returns without raising anything -
    no [ChecksumError], no other exception - and it has not asked the hasher
    for its digest: there is no final comparison.  The scope of a
    [downloadStream] with verification then ends without error as well. *)
Theorem transform_reader_gone :
  (forall (info : AWSFile) (readable : bytes) (w : Writable),
     In ReaderGone (events (snd (HashingPipe_transform info readable w))) ->
     fst (HashingPipe_transform info readable w) = Ok tt /\
     (forall e, fst (HashingPipe_transform info readable w) <> Raise e) /\
     (forall d, ~ In (Hexdigest d) (events (snd (HashingPipe_transform info readable w))))) /\
  (forall (self : AWSFile) (reader : Writable) (world : World),
     In ReaderGone (steps (fst (downloadStream self true reader world))) ->
     outcome (fst (downloadStream self true reader world)) = Ok tt /\
     (forall d, ~ In (Hexdigest d) (steps (fst (downloadStream self true reader world))))).
Proof.
  split.
  - intros info readable w Hgone.
    destruct (transform_silent info readable w Hgone) as [Hok Hno].
    rewrite Hok. repeat split; done.
  - intros self reader world. unfold downloadStream.
    destruct (nonempty (checksum self)) as [cs|]; simpl.
    + destruct (DownloadPipe_writeTo self fresh_pipe world) as [[p|e] world'].
      * destruct (HashingPipe_transform self (received p) reader) as [r st] eqn:Ht.
        simpl. intros Hgone.
        pose proof (transform_silent self (received p) reader) as Hsilent.
        rewrite Ht in Hsilent. simpl in Hsilent.
        destruct (Hsilent Hgone) as [-> Hno]. done.
      * pose proof (transform_empty_source self reader) as Hempty.
        destruct (HashingPipe_transform self [] reader) as [r st]. simpl in *.
        intros Hgone. by destruct Hempty.
    + destruct (DownloadPipe_writeTo self reader world) as [[p|e] world']; by intros [].
Qed.

End Transform.

Lemma transform_reader_gone_witness :
  In ReaderGone
     (events (snd (HashingPipe_transform (R := python) (remote_record (b "hello"))
                     (b "hello") {| received := []; accepts := Some 0 |})))
  /\ fst (HashingPipe_transform (R := python) (remote_record (b "hello"))
            (b "hello") {| received := []; accepts := Some 0 |}) = Ok tt
  /\ outcome (fst (downloadStream (R := python) (remote_record (b "hello")) true
                     {| received := []; accepts := Some 0 |} empty_world)) = Ok tt.
Proof.
  assert (In ReaderGone
            (events (snd (HashingPipe_transform (R := python) (remote_record (b "hello"))
                            (b "hello") {| received := []; accepts := Some 0 |})))) as Hgone.
  { vm_compute. right. left. reflexivity. }
  assert (In ReaderGone
            (steps (fst (downloadStream (R := python) (remote_record (b "hello")) true
                           {| received := []; accepts := Some 0 |} empty_world)))) as Hgone'.
  { vm_compute. right. left. reflexivity. }
  split; [exact Hgone|]. split.
  - exact (proj1 (proj1 (transform_reader_gone (R := python)) (remote_record (b "hello"))
                    (b "hello") {| received := []; accepts := Some 0 |} Hgone)).
  - exact (proj1 (proj2 (transform_reader_gone (R := python)) (remote_record (b "hello"))
                    {| received := []; accepts := Some 0 |} empty_world Hgone')).
Defined.

(** ** [downloadStream] *)

Section DownloadStream.
Context {R : Runtime}.

(** The download pipe in front of a reader that stays: inlined content goes
    to the reader in one write. *)
Lemma writeTo_inline (info : AWSFile) (data : bytes) (w : Writable) (world : World) :
  content info = Some data ->
  accepts w = None ->
  DownloadPipe_writeTo info w world
    = (Ok {| received := received w ++ data; accepts := None |}, world).
Proof.
  intros Hc Hopen. unfold DownloadPipe_writeTo, write, ret. by rewrite Hc, Hopen.
Qed.

(** C10: for a record with inlined content and a checksum, [downloadStream]
    with verification puts the hashing pipe over the inlined bytes as it
    does over remote bytes: when the checksum is at odds with the content,
    the reader gets the content and the scope ends in [ChecksumError], the
    digest being taken as the last step, at end-of-stream.  [download] of
    the same record with verification writes the content and raises
    nothing: it verifies on the version branch only. *)
Theorem downloadStream_verifies_inline (self : AWSFile) (data : bytes) (cs : string)
    (localFilePath : string) (world : World) :
  content self = Some data ->
  checksum self = Some cs ->
  disagrees cs data ->
  let d := fst (downloadStream self true fresh_pipe world) in
  outcome d = Raise (ChecksumError "") /\
  received (consumer d) = data /\
  (exists evs digest, steps d = evs ++ [Hexdigest digest]) /\
  fst (download self localFilePath true world) = Ok tt /\
  files (snd (download self localFilePath true world)) !! localFilePath = Some data.
Proof.
  intros Hc Hcs (algorithm & digest & hexdigest & Hsplit & Hhash & Hne) d.
  assert (outcome d = Raise (ChecksumError "") /\ received (consumer d) = data /\
          exists evs digest, steps d = evs ++ [Hexdigest digest]) as Hstream.
  { subst d. unfold downloadStream.
    rewrite Hcs, (split_checksum_nonempty cs _ Hsplit).
    rewrite (writeTo_inline self data fresh_pipe world Hc eq_refl). simpl.
    destruct (transform_to_eof self data fresh_pipe cs algorithm digest hexdigest)
      as (Hres & Hw & evs & Hev); try done.
    destruct (HashingPipe_transform self data fresh_pipe) as [r st]. simpl in *.
    rewrite Hres, Hw, Hev. simpl.
    destruct (String.eqb_spec (format_checksum algorithm (hexdigest data)) cs); [done|].
    simpl. repeat split; eauto. }
  destruct Hstream as (? & ? & ?). repeat split; try done.
  - unfold download, AtomicFileCreate, write_file. rewrite Hc. simpl.
    by rewrite lookup_insert_eq.
  - unfold download, AtomicFileCreate, write_file. rewrite Hc. simpl.
    rewrite lookup_insert_eq. simpl. by rewrite lookup_insert_eq.
Qed.

End DownloadStream.

Lemma downloadStream_verifies_inline_witness :
  outcome (fst (downloadStream (R := python) (inline_record (b "hellx") (Some hello_checksum))
                  true fresh_pipe empty_world)) = Raise (ChecksumError "")
  /\ fst (download (R := python) (inline_record (b "hellx") (Some hello_checksum))
            "/tmp/out" true empty_world) = Ok tt.
Proof.
  assert (disagrees (R := python) hello_checksum (b "hellx")) as Hbad.
  { exists "sha256",
      "2cf24dba5fb0a30e26e83b2ac5b9e29e1b161e5c1fa7425e73043362938b9824", Hashlib.sha256.
    split; [reflexivity|]. split; [reflexivity|]. vm_compute. discriminate. }
  pose proof (downloadStream_verifies_inline (R := python)
                (inline_record (b "hellx") (Some hello_checksum)) (b "hellx")
                hello_checksum "/tmp/out" empty_world eq_refl eq_refl Hbad) as H.
  split; [exact (proj1 H) | exact (proj1 (proj2 (proj2 (proj2 H))))].
Defined.

(** C2, the scenario run on the code: with the checksum of [hello] on the
    record, a source giving [hello] reaches the reader unchanged and the
    scope ends without error; a source giving [hellx] ends in
    [ChecksumError] once the reader has taken every byte - and the
    exception is raised with the empty message, so it carries neither the
    expected nor the actual digest. *)
Theorem downloadStream_hello_hellx :
  let good := fst (downloadStream (R := python) (remote_record (b "hello")) true
                     fresh_pipe empty_world) in
  let bad := fst (downloadStream (R := python) (remote_record (b "hellx")) true
                    fresh_pipe empty_world) in
  received (consumer good) = b "hello" /\ outcome good = Ok tt /\
  received (consumer bad) = b "hellx" /\ outcome bad = Raise (ChecksumError "") /\
  last (steps bad)
  = Some (Hexdigest "0b6179b38a9702b3e6b715188031623d09cdc4d173c6acfee273210ea281e1a8") /\
  fst (download (R := python) (remote_record (b "hellx")) "/tmp/out" true empty_world)
  = Raise (ChecksumError
             ("Checksum mismatch for file /tmp/out. Expected: " +:+ hello_checksum +:+
              " Actual: sha256$0b6179b38a9702b3e6b715188031623d09cdc4d173c6acfee273210ea281e1a8")).
Proof. vm_compute. repeat split; reflexivity. Qed.

(** ** [download] *)

Section Download.
Context {R : Runtime}.

(** The version branch up to the checksum test: the object is fetched into
    the temporary file, which is then published at the destination. *)
Lemma download_publishes (self : AWSFile) (localFilePath v : string) (w : World) :
  AtomicFileCreate localFilePath (fun tmpPath =>
    download_file (outer self) (compat_bytes (fileID self)) tmpPath v
      (_s3EncryptionArgs self)) w
  = (Ok tt,
     {| files := <[localFilePath := object_body (outer self) (fileID self) v]>
                   (base.delete (atomic_tmp_file localFilePath)
                      (<[atomic_tmp_file localFilePath :=
                           object_body (outer self) (fileID self) v]> (files w)));
        calls := calls w ++ [DownloadFile (filesBucket (outer self)) (fileID self)
                               (atomic_tmp_file localFilePath) v (_s3EncryptionArgs self)] |}).
Proof.
  unfold AtomicFileCreate, download_file, bind, call, write_file, compat_bytes. simpl.
  by rewrite lookup_insert_eq.
Qed.

(** C1, as the code has it.  On the version branch (no inlined content, a
    non-empty [version]) the object lands at the destination, and with
    [verifyChecksum] and a checksum on the record [download] raises
    [ChecksumError], naming the path and both checksum strings, exactly when
    the checksum of the file at the destination differs from the recorded
    one.  With inlined content [download] writes the content to the
    destination and returns, whatever the checksum on the record says. *)
Theorem download_checks (self : AWSFile) (localFilePath : string) (w : World) :
  (forall v verifyChecksum, content self = None -> version self = Some v -> v <> "" ->
     files (snd (download self localFilePath verifyChecksum w)) !! localFilePath
       = Some (object_body (outer self) (fileID self) v)) /\
  (forall v cs algorithm digest hexdigest,
     content self = None -> version self = Some v -> v <> "" ->
     checksum self = Some cs ->
     split_checksum cs = Ok (algorithm, digest) ->
     hashlib algorithm = Some hexdigest ->
     let computed :=
       format_checksum algorithm (hexdigest (object_body (outer self) (fileID self) v)) in
     (computed <> cs ->
        fst (download self localFilePath true w)
          = Raise (ChecksumError (mismatch_message localFilePath cs computed))) /\
     (computed = cs -> fst (download self localFilePath true w) = Ok tt)) /\
  (forall data verifyChecksum, content self = Some data ->
     fst (download self localFilePath verifyChecksum w) = Ok tt /\
     files (snd (download self localFilePath verifyChecksum w)) !! localFilePath
       = Some data).
Proof.
  split; [|split].
  - intros v verify Hc Hv Hne. unfold download. rewrite Hc.
    assert (nonempty (version self) = Some v) as -> by by apply nonempty_Some.
    unfold bind at 1. rewrite download_publishes.
    destruct (if verify then nonempty (checksum self) else None) as [cs|];
      [|simpl; by rewrite lookup_insert_eq].
    unfold bind, lift, compute_checksum_for_file, bind, read_file, ret, raise.
    destruct (split_checksum cs) as [[algorithm digest]|e]; simpl;
      [|by rewrite lookup_insert_eq].
    rewrite lookup_insert_eq.
    destruct (hashlib algorithm) as [hexdigest|]; simpl; [|by rewrite lookup_insert_eq].
    destruct (negb _); simpl; by rewrite lookup_insert_eq.
  - intros v cs algorithm digest hexdigest Hc Hv Hne Hcs Hsplit Hhash computed.
    assert (fst (download self localFilePath true w)
            = if String.eqb cs computed then Ok tt
              else Raise (ChecksumError (mismatch_message localFilePath cs computed)))
      as ->.
    { unfold download. rewrite Hc.
      assert (nonempty (version self) = Some v) as -> by by apply nonempty_Some.
      unfold bind at 1. rewrite download_publishes.
      rewrite Hcs, (split_checksum_nonempty cs _ Hsplit).
      unfold bind, lift, compute_checksum_for_file, bind, read_file, ret, raise.
      rewrite Hsplit. simpl. rewrite lookup_insert_eq, Hhash. fold computed.
      by destruct (String.eqb cs computed). }
    destruct (String.eqb_spec cs computed); split; congruence.
  - intros data verify Hc. unfold download, AtomicFileCreate, write_file.
    rewrite Hc. simpl. rewrite lookup_insert_eq. simpl. by rewrite lookup_insert_eq.
Qed.

End Download.

Lemma download_checks_witness :
  fst (download (R := python) (remote_record (b "hellx")) "/tmp/out" true empty_world)
    = Raise (ChecksumError
               (mismatch_message "/tmp/out" hello_checksum
                  (format_checksum "sha256" (Hashlib.sha256 (b "hellx")))))
  /\ fst (download (R := python) (remote_record (b "hello")) "/tmp/out" true empty_world)
     = Ok tt
  /\ files (snd (download (R := python) (remote_record (b "hello")) "/tmp/out" true
                   empty_world)) !! "/tmp/out" = Some (b "hello")
  /\ fst (download (R := python) (inline_record (b "hello") None) "/tmp/out" true
            empty_world) = Ok tt.
Proof.
  assert ("v1" <> "") as Hv by discriminate.
  split; [|split; [|split]].
  - refine (proj1 (proj1 (proj2 (download_checks (R := python) (remote_record (b "hellx"))
                                   "/tmp/out" empty_world))
                     "v1" hello_checksum "sha256"
                     "2cf24dba5fb0a30e26e83b2ac5b9e29e1b161e5c1fa7425e73043362938b9824"
                     Hashlib.sha256 eq_refl eq_refl Hv eq_refl eq_refl eq_refl) _).
    vm_compute. discriminate.
  - refine (proj2 (proj1 (proj2 (download_checks (R := python) (remote_record (b "hello"))
                                   "/tmp/out" empty_world))
                     "v1" hello_checksum "sha256"
                     "2cf24dba5fb0a30e26e83b2ac5b9e29e1b161e5c1fa7425e73043362938b9824"
                     Hashlib.sha256 eq_refl eq_refl Hv eq_refl eq_refl eq_refl) _).
    vm_compute. reflexivity.
  - exact (proj1 (download_checks (R := python) (remote_record (b "hello"))
                    "/tmp/out" empty_world) "v1" true eq_refl eq_refl Hv).
  - exact (proj1 (proj2 (proj2 (download_checks (R := python)
                                  (inline_record (b "hello") None)
                                  "/tmp/out" empty_world)) (b "hello") true eq_refl)).
Defined.

(** C1, as stated, fails on the content branch: the record carries the
    checksum of [hello] and the inlined bytes [hellx]; [download] with
    verification writes [hellx] to the destination and returns, although
    the checksum of those bytes is not the recorded one. *)
Lemma download_inline_unchecked :
  let r := inline_record (b "hellx") (Some hello_checksum) in
  let out := download (R := python) r "/tmp/out" true empty_world in
  checksum r = Some hello_checksum /\
  fst out = Ok tt /\
  files (snd out) !! "/tmp/out" = Some (b "hellx") /\
  format_checksum "sha256" (Hashlib.sha256 (b "hellx")) <> hello_checksum /\
  (forall msg, fst out <> Raise (ChecksumError msg)).
Proof.
  split; [reflexivity|]. split; [vm_compute; reflexivity|].
  split; [vm_compute; reflexivity|].
  split; [vm_compute; discriminate | intros msg; vm_compute; discriminate].
Qed.

(** ** [upload] and [uploadStream] *)

(** C4, run on the code: [upload] is the two assignments of lines 91 and
    92, to [checksum] and to [version]; it does not clear the inlined
    content.  An inlined record (content [old], version [""]) comes out of
    [upload] with the version and the checksum of the uploaded file and
    with the content [old] still in place, a record that is inlined and
    has a non-empty version at once, which every reader goes on to read as
    [old]. *)
Theorem upload_keeps_inline_content :
  let r := inline_record (b "old") None in
  exists self',
    fst (upload (R := python) r "/tmp/in" true (world_with "/tmp/in" (b "hello")))
      = Ok self' /\
    version self' = Some "v2" /\
    checksum self' = Some "sha1$aaf4c61ddcc5e8a2dabede0f3b482cd9aea9434d" /\
    content self' = Some (b "old") /\ content self' <> None /\
    stored_bytes self' = Some (b "old").
Proof.
  eexists. split; [vm_compute; reflexivity|]. simpl.
  repeat split; try reflexivity. discriminate.
Qed.

(** C7: when the caller's block ends normally, [uploadStream] raises
    [RuntimeError] (ProtocolViolation) if the reader of the pipe has not run
    to completion, and ends without error if it has. *)
Theorem uploadStream_reader_done (self : AWSFile) (multipart allowInlining : bool)
    (scope : MultiPartPipe -> result unit * MultiPartPipe) :
  fst (scope new_MultiPartPipe) = Ok tt ->
  (reader_done (snd (scope new_MultiPartPipe)) = false ->
     fst (uploadStream self multipart allowInlining scope)
       = Raise (RuntimeError "Escaped context manager without written data being read!")) /\
  (reader_done (snd (scope new_MultiPartPipe)) = true ->
     fst (uploadStream self multipart allowInlining scope) = Ok tt).
Proof.
  intros Hbody. unfold uploadStream.
  destruct (scope new_MultiPartPipe) as [[[]|e] pipe]; simpl in *; [|discriminate].
  split; intros ->; reflexivity.
Qed.

Lemma uploadStream_reader_done_witness :
  fst (uploadStream new_record true true
         (fun pipe => (Ok tt, {| written := b "data"; reader_done := false |})))
    = Raise (RuntimeError "Escaped context manager without written data being read!")
  /\ fst (uploadStream new_record true true
            (fun pipe => (Ok tt, {| written := b "data"; reader_done := true |})))
     = Ok tt.
Proof.
  split.
  - exact (proj1 (uploadStream_reader_done new_record true true
                    (fun pipe => (Ok tt, {| written := b "data"; reader_done := false |}))
                    eq_refl) eq_refl).
  - exact (proj2 (uploadStream_reader_done new_record true true
                    (fun pipe => (Ok tt, {| written := b "data"; reader_done := true |}))
                    eq_refl) eq_refl).
Defined.

(** * Further properties *)

(** ** Writing a checksum string and taking it apart again *)

Lemma split_clean (sep : ascii) (s : string) :
  count_char sep s = 0 -> split sep s = [s].
Proof.
  induction s as [|c rest IH]; simpl; [done|].
  destruct (Ascii.eqb c sep); simpl; [done|]. intros Hrest. by rewrite (IH Hrest).
Qed.

Lemma split_append (sep : ascii) (s t : string) :
  count_char sep s = 0 -> split sep (s +:+ String sep t) = s :: split sep t.
Proof.
  induction s as [|c rest IH]; simpl.
  - intros _. by rewrite Ascii.eqb_refl.
  - destruct (Ascii.eqb c sep); simpl; [done|]. intros Hrest. by rewrite (IH Hrest).
Qed.

Lemma unpack2_Ok (parts : list string) (x y : string) :
  unpack2 parts = Ok (x, y) -> parts = [x; y].
Proof.
  destruct parts as [|p [|q [|r t]]]; simpl; try discriminate. by intros [= -> ->].
Qed.

Lemma split_format_clean (algorithm digest : string) :
  count_char "$" algorithm = 0 -> count_char "$" digest = 0 ->
  split_checksum (format_checksum algorithm digest) = Ok (algorithm, digest).
Proof.
  intros Ha Hd. unfold split_checksum, format_checksum.
  change (algorithm +:+ "$" +:+ digest) with (algorithm +:+ String "$" digest).
  by rewrite (split_append "$" algorithm digest Ha), (split_clean "$" digest Hd).
Qed.

(** The checksum string [f'{algorithm}${digest}'] splits back into the
    algorithm and the digest exactly when neither of them contains ['$']. *)
Theorem format_split_roundtrip (algorithm digest : string) :
  split_checksum (format_checksum algorithm digest) = Ok (algorithm, digest)
  <-> count_char "$" algorithm = 0 /\ count_char "$" digest = 0.
Proof.
  unfold split_checksum, format_checksum. split.
  - intros Hparts. apply unpack2_Ok in Hparts.
    pose proof (split_parts_clean "$" (algorithm +:+ "$" +:+ digest)) as Hclean.
    rewrite Hparts in Hclean.
    inversion Hclean as [|? ? Ha Hrest]. by inversion Hrest.
  - intros [Ha Hd]. by apply split_format_clean.
Qed.

(** ** [copyFrom] *)

Lemma nonempty_intro (v : string) : v <> "" -> nonempty (Some v) = Some v.
Proof. intros Hv. by apply nonempty_Some. Qed.

Section CopyFrom.
Context {R : Runtime} {C : CopyService}.

(** [copyFrom] fails its assertion, sending nothing, exactly when the source
    has no content length; it fetches the body exactly when the length is
    at most 256 (256 included), and asks for one server-side copy, pinned
    to the version of the source and with AES256 on the destination,
    exactly when the length is above 256. *)
Theorem copyFrom_threshold (self : AWSFile) (srcObj : SrcObj.t) :
  let run := copyFrom self srcObj in
  (fst run = Raise AssertionError <-> SrcObj.content_length srcObj = None) /\
  (SrcObj.content_length srcObj = None <-> snd run = []) /\
  (snd run = [GetObject (SrcObj.bucket_name srcObj) (SrcObj.key srcObj)]
     <-> exists n, SrcObj.content_length srcObj = Some n /\ (n <= 256)%Z) /\
  (snd run = [CopyKeyMultipartTo (SrcObj.bucket_name srcObj) (SrcObj.key srcObj)
                (SrcObj.version_id srcObj) (filesBucket (outer self)) (_fileID self)
                "AES256" (_getSSEKey self)]
     <-> exists n, SrcObj.content_length srcObj = Some n /\ (256 < n)%Z).
Proof.
  unfold copyFrom, compat_bytes.
  destruct (SrcObj.content_length srcObj) as [n|]; simpl.
  - destruct (Z.leb_spec n 256); simpl.
    + repeat split; try done.
      * intros _. by exists n.
      * intros (m & [= <-] & Hm). lia.
    + repeat split; try done.
      * intros (m & [= <-] & Hm). lia.
      * intros _. by exists n.
  - repeat split; try done; by intros (m & Hm & _).
Qed.

(** Copying a small object in and reading the record: the record then
    holds the fetched body inline; [getSize] is the length of that body,
    [copyTo] puts that body at the destination without a server-side copy,
    and [download] writes it to the local file without a call to S3. *)
Theorem copyFrom_small_then_read (self : AWSFile) (srcObj : SrcObj.t) (n : Z)
    (dstObj : S3Object) (localFilePath : string) (verifyChecksum : bool) (w : World) :
  SrcObj.content_length srcObj = Some n ->
  (n <= 256)%Z ->
  exists self',
    fst (copyFrom self srcObj) = Ok self' /\
    content self' = Some (SrcObj.body srcObj) /\
    fst (getSize self' w) = Ok (Z.of_nat (length (SrcObj.body srcObj))) /\
    copyTo self' dstObj w
      = (Ok tt, {| files := files w;
                   calls := calls w ++ [PutObject (bucket_name dstObj) (key dstObj)
                                          (SrcObj.body srcObj)] |}) /\
    fst (download self' localFilePath verifyChecksum w) = Ok tt /\
    files (snd (download self' localFilePath verifyChecksum w)) !! localFilePath
      = Some (SrcObj.body srcObj) /\
    calls (snd (download self' localFilePath verifyChecksum w)) = calls w.
Proof.
  intros Hlen Hsmall. unfold copyFrom. rewrite Hlen.
  destruct (Z.leb_spec n 256); [|lia]. simpl.
  eexists; split; [reflexivity|].
  unfold getSize, copyTo, download, AtomicFileCreate, write_file, call, ret. simpl.
  rewrite lookup_insert_eq. simpl. rewrite lookup_insert_eq. done.
Qed.

(** Copying a large object into a record without inlined content: the
    record then carries the version the copy returned, and, that version
    being non-empty, the readers go to it: [copyTo] copies from that
    version, [download] fetches it, pinned to that version, and publishes
    what S3 delivers for it; [getSize] asks for the length of the object
    under [fileID], without a version. *)
Theorem copyFrom_large_then_read (self : AWSFile) (srcObj : SrcObj.t) (n : Z)
    (dstObj : S3Object) (localFilePath : string) (w : World) :
  SrcObj.content_length srcObj = Some n ->
  (256 < n)%Z ->
  content self = None ->
  let request :=
    CopyKeyMultipartTo (SrcObj.bucket_name srcObj) (SrcObj.key srcObj)
      (SrcObj.version_id srcObj) (filesBucket (outer self)) (_fileID self)
      "AES256" (_getSSEKey self) in
  copied_version request <> "" ->
  exists self',
    copyFrom self srcObj = (Ok self', [request]) /\
    version self' = Some (copied_version request) /\
    stored_bytes self'
      = Some (object_body (outer self) (fileID self) (copied_version request)) /\
    issued_by (copyTo self' dstObj) w
      = [CopyKeyMultipart (filesBucket (outer self)) (fileID self) (copied_version request)
           (bucket_name dstObj) (key dstObj) "AES256" (_getSSEKey self')] /\
    issued_by (download self' localFilePath false) w
      = [DownloadFile (filesBucket (outer self)) (fileID self)
           (atomic_tmp_file localFilePath) (copied_version request)
           (_s3EncryptionArgs self')] /\
    files (snd (download self' localFilePath false w)) !! localFilePath
      = Some (object_body (outer self) (fileID self) (copied_version request)) /\
    getSize self' w
      = (Ok (object_content_length (outer self) (fileID self)),
         {| files := files w;
            calls := calls w ++ [ContentLength (filesBucket (outer self)) (fileID self)] |}).
Proof.
  intros Hlen Hlarge Hc request Hv. unfold copyFrom. rewrite Hlen.
  destruct (Z.leb_spec n 256); [lia|]. unfold compat_bytes. fold request.
  eexists. split; [reflexivity|].
  set (self' := set_version (Some (copied_version request)) self).
  assert (content self' = None) as Hc' by done.
  assert (version self' = Some (copied_version request)) as Hv' by done.
  split; [done|]. split; [|split; [|split; [|split]]].
  - unfold stored_bytes. by rewrite Hc', Hv', (nonempty_intro _ Hv).
  - unfold copyTo, issued_by, call, compat_bytes.
    rewrite Hc', Hv', (nonempty_intro _ Hv). simpl. by rewrite skipn_calls.
  - unfold issued_by, download. rewrite Hc', Hv', (nonempty_intro _ Hv).
    unfold bind at 1. rewrite download_publishes. simpl. by rewrite skipn_calls.
  - unfold download. rewrite Hc', Hv', (nonempty_intro _ Hv).
    unfold bind at 1. rewrite download_publishes. simpl. by rewrite lookup_insert_eq.
  - unfold getSize, bind, call, ret, compat_bytes.
    by rewrite Hc', Hv', (nonempty_intro _ Hv).
Qed.

End CopyFrom.

Lemma copyFrom_small_then_read_witness :
  exists self',
    fst (copyFrom (R := python) (C := copies) new_record small_source) = Ok self' /\
    fst (getSize self' empty_world) = Ok 5%Z.
Proof.
  assert ((5 <= 256)%Z) as Hsmall by lia.
  destruct (copyFrom_small_then_read (R := python) (C := copies) new_record small_source 5
              {| bucket_name := "dst"; key := "k" |} "/tmp/out" true empty_world
              eq_refl Hsmall) as (self' & Hrun & _ & Hsize & _).
  exists self'. split; [exact Hrun | exact Hsize].
Defined.

Lemma copyFrom_large_then_read_witness :
  exists self',
    copyFrom (R := python) (C := copies) new_record large_source
      = (Ok self', [CopyKeyMultipartTo "src" "k" "s1" "toil-files" "file-3" "AES256" None]) /\
    version self' = Some "v3".
Proof.
  assert ((256 < 257)%Z) as Hlarge by lia.
  assert ("v3" <> "") as Hv by discriminate.
  destruct (copyFrom_large_then_read (R := python) (C := copies) new_record large_source 257
              {| bucket_name := "dst"; key := "k" |} "/tmp/out" empty_world
              eq_refl Hlarge eq_refl Hv)
    as (self' & Hrun & Hversion & _).
  exists self'. split; [exact Hrun | exact Hversion].
Defined.

(** ** What the hashing pipe forwards *)

Lemma take_bytes_take (size : N) (data : bytes) :
  take_bytes size data = take (N.to_nat size) data.
Proof.
  revert size; induction data as [|x rest IH]; intros size; simpl.
  - by destruct (N.to_nat size).
  - destruct (N.eqb_spec size 0) as [->|Hpos]; [done|].
    rewrite IH. replace (N.to_nat size) with (S (N.to_nat (N.pred size))) by lia. done.
Qed.

Lemma drop_bytes_drop (size : N) (data : bytes) :
  drop_bytes size data = drop (N.to_nat size) data.
Proof.
  revert size; induction data as [|x rest IH]; intros size; simpl.
  - by destruct (N.to_nat size).
  - destruct (N.eqb_spec size 0) as [->|Hpos]; [done|].
    rewrite IH. replace (N.to_nat size) with (S (N.to_nat (N.pred size))) by lia. done.
Qed.

Lemma take_bytes_length (size : N) (data : bytes) :
  length (take_bytes size data) <= N.to_nat size.
Proof. rewrite take_bytes_take, length_take. lia. Qed.

(** Whatever the reader does, what it has been given is a prefix of the
    source, and the hasher has taken that prefix and, when the loop was left
    on a failed write, the one chunk of that write. *)
Lemma loop_prefix (size : N) (contents readable : bytes) (st : Hashing) :
  length contents <= N.to_nat size ->
  exists fwd more rest,
    contents ++ readable = fwd ++ more ++ rest /\
    received (writable (snd (transform_loop size contents readable st)))
      = received (writable st) ++ fwd /\
    hasher (snd (transform_loop size contents readable st)) = hasher st ++ fwd ++ more /\
    length more <= N.to_nat size /\
    (more <> [] -> fst (transform_loop size contents readable st) = Returned).
Proof.
  funelim (transform_loop size contents readable st); intros Hchunk.
  - exists [], [], readable. simpl. rewrite !app_nil_r. repeat split; try done; lia.
  - destruct (loop_body_cases (x :: rest) st) as [[_ Hb]|[_ Hb]];
      rewrite Hb in Heq; inversion Heq; subst; clear Heq.
    exists [], (x :: rest), readable. simpl. rewrite app_nil_r.
    repeat split; done.
  - destruct (loop_body_cases (x :: rest) st) as [[_ Hb]|[_ Hb]];
      rewrite Hb in Heq; inversion Heq; subst; clear Heq.
    destruct (H (take_bytes_length size readable))
      as (fwd & more & rest' & Hall & Hgot & Hfed & Hlen & Hleft).
    simpl in Hgot, Hfed. rewrite take_drop_bytes in Hall.
    exists ((x :: rest) ++ fwd), more, rest'.
    split; [rewrite <- app_assoc; by rewrite <- Hall|].
    split; [by rewrite Hgot, <- app_assoc|].
    split; [by rewrite Hfed, <- !app_assoc|]. split; [exact Hlen | exact Hleft].
Qed.

(** When the loop ends at EOF, the whole source has gone through. *)
Lemma loop_eof_complete (size : N) (contents readable : bytes) (st : Hashing) :
  (0 < size)%N ->
  (contents = [] -> readable = []) ->
  fst (transform_loop size contents readable st) = ReachedEOF ->
  hasher (snd (transform_loop size contents readable st))
    = hasher st ++ contents ++ readable /\
  received (writable (snd (transform_loop size contents readable st)))
    = received (writable st) ++ contents ++ readable.
Proof.
  funelim (transform_loop size contents readable st); intros Hpos Hlast Hexit.
  - rewrite (Hlast eq_refl). simpl. by rewrite !app_nil_r.
  - destruct (loop_body_cases (x :: rest) st) as [[_ Hb]|[_ Hb]];
      rewrite Hb in Heq; inversion Heq; subst; clear Heq. discriminate.
  - destruct (loop_body_cases (x :: rest) st) as [[_ Hb]|[_ Hb]];
      rewrite Hb in Heq; inversion Heq; subst; clear Heq.
    destruct H as (Hfed & Hgot); [done | | done |].
    { intros Hnil. apply take_bytes_nil in Hnil as ->; [|done].
      by destruct (N.eqb size 0). }
    simpl in Hfed, Hgot.
    rewrite Hfed, Hgot, <- !app_assoc, take_drop_bytes. done.
Qed.

(** A reader that takes [k] writes and then closes its end, before the
    source is exhausted: the loop returns, and the reader has the first [k]
    chunks. *)
Lemma loop_reader_leaves (size : N) (contents readable : bytes) (st : Hashing) :
  forall k : nat,
    (0 < size)%N ->
    contents = take_bytes size (contents ++ readable) ->
    accepts (writable st) = Some k ->
    k * N.to_nat size < length (contents ++ readable) ->
    fst (transform_loop size contents readable st) = Returned /\
    received (writable (snd (transform_loop size contents readable st)))
      = received (writable st) ++ take (k * N.to_nat size) (contents ++ readable).
Proof.
  funelim (transform_loop size contents readable st); intros k Hpos Hchunk Hacc Hmore.
  - simpl in Hchunk, Hmore. rewrite take_bytes_take in Hchunk.
    destruct readable as [|y l]; [simpl in Hmore; lia|].
    replace (N.to_nat size) with (S (N.to_nat size - 1)) in Hchunk by lia. done.
  - destruct (loop_body_cases (x :: rest) st) as [[Ha Hb]|[Ha Hb]];
      rewrite Hb in Heq; inversion Heq; subst; clear Heq.
    rewrite Hacc in Ha. injection Ha as ->. simpl. by rewrite app_nil_r.
  - destruct (loop_body_cases (x :: rest) st) as [[Ha Hb]|[Ha Hb]];
      rewrite Hb in Heq; inversion Heq; subst; clear Heq.
    destruct k as [|k]; [by rewrite Hacc in Ha|].
    rewrite take_bytes_take in Hchunk.
    assert (length (x :: rest) = N.to_nat size) as Hlen.
    { rewrite Hchunk at 1. rewrite length_take. lia. }
    assert (readable = drop (N.to_nat size) ((x :: rest) ++ readable)) as Hrest.
    { rewrite <- Hlen. by rewrite drop_app_length. }
    destruct (H k) as [Hexit Hgot]; [done | | by simpl; rewrite Hacc | |].
    { by rewrite take_drop_bytes, take_bytes_take. }
    { rewrite take_drop_bytes. rewrite length_app in Hmore. lia. }
    split; [done|]. rewrite Hgot. simpl received.
    rewrite take_drop_bytes, <- app_assoc. f_equal.
    rewrite Hrest at 1. rewrite Hchunk at 1.
    rewrite take_take_drop. f_equal; lia.
Qed.

Lemma split_checksum_malformed (cs : string) :
  count_char "$" cs <> 1 -> exists msg, split_checksum cs = Raise (ValueError msg).
Proof.
  intros Hcount. unfold split_checksum.
  pose proof (split_length "$" cs) as Hlen.
  destruct (split "$" cs) as [|x [|y [|z t]]]; simpl in *; try by eexists.
  lia.
Qed.

Lemma split_checksum_raises (cs : string) (e : exn) :
  split_checksum cs = Raise e -> exists msg, e = ValueError msg.
Proof.
  unfold split_checksum.
  destruct (split "$" cs) as [|x [|y [|z t]]]; simpl; intros [= <-]; by eexists.
Qed.

Section Forwarding.
Context {R : Runtime}.

(** The hashing pipe never alters or reorders data: whatever the reader
    does and whatever the checksum is, what the reader has been given is a
    prefix of the source, and the hasher has been fed exactly that prefix,
    or that prefix and one more chunk, of at most 1024 * 1024 bytes: the
    chunk whose write found the reader gone, after which the transform
    returned.  A [ChecksumError] comes only after the reader has been given
    the whole source. *)
Theorem transform_forwards_prefix (info : AWSFile) (readable : bytes) (w : Writable) :
  exists fwd more rest,
    readable = fwd ++ more ++ rest /\
    received (writable (snd (HashingPipe_transform info readable w))) = received w ++ fwd /\
    hasher (snd (HashingPipe_transform info readable w)) = fwd ++ more /\
    length more <= N.to_nat CHUNK /\
    (more <> [] ->
       In ReaderGone (events (snd (HashingPipe_transform info readable w))) /\
       fst (HashingPipe_transform info readable w) = Ok tt) /\
    (forall msg, fst (HashingPipe_transform info readable w) = Raise (ChecksumError msg) ->
                 fwd = readable /\ more = [] /\ rest = []).
Proof.
  assert (exists fwd more rest : bytes,
            readable = fwd ++ more ++ rest /\ received w = received w ++ fwd /\
            [] = fwd ++ more /\ length more <= N.to_nat CHUNK /\ more = []) as Hnone.
  { exists [], [], readable. rewrite app_nil_r. repeat split; try done; simpl; lia. }
  unfold HashingPipe_transform, read.
  destruct (checksum info) as [cs|]; simpl;
    [|destruct Hnone as (f & m & r & ? & ? & ? & ? & ->); by exists f, [], r].
  destruct (split_checksum cs) as [[algorithm digest]|e] eqn:Hsplit; simpl.
  2: { destruct Hnone as (f & m & r & ? & ? & ? & ? & ->). exists f, [], r.
       split; [done|]. split; [done|]. split; [done|]. split; [done|]. split; [done|].
       intros msg' [= ->].
       destruct (split_checksum_raises cs _ Hsplit) as [m' Hm]. discriminate. }
  destruct (hashlib algorithm) as [hexdigest|]; simpl;
    [|destruct Hnone as (f & m & r & ? & ? & ? & ? & ->); by exists f, [], r].
  set (st := {| hasher := []; writable := w; events := [] |}).
  pose proof (loop_prefix CHUNK (take_bytes CHUNK readable) (drop_bytes CHUNK readable) st
                (take_bytes_length CHUNK readable))
    as (fwd & more & rest & Hall & Hgot & Hfed & Hlen & Hleft).
  pose proof (loop_eof_complete CHUNK (take_bytes CHUNK readable)
                (drop_bytes CHUNK readable) st CHUNK_pos) as Heof.
  pose proof (loop_trace CHUNK (take_bytes CHUNK readable) (drop_bytes CHUNK readable) st)
    as (evs & Hev & _ & Hgone & Hprop).
  rewrite take_drop_bytes in Hall, Heof. simpl in Hgot, Hfed, Heof, Hev.
  destruct (transform_loop CHUNK _ _ st) as [exit st'] eqn:Hloop. simpl in *.
  destruct exit as [| |e].
  - destruct Heof as [Hfed' Hgot']; [|done|].
    { intros Hnil. apply take_bytes_nil in Hnil as ->; [done | apply CHUNK_pos]. }
    exists readable, [], [].
    destruct (negb _); simpl; rewrite !app_nil_r; repeat split; try done; lia.
  - exists fwd, more, rest. simpl. rewrite Hev.
    split; [done|]. split; [done|]. split; [done|]. split; [done|]. split; [|done].
    intros _. split; [by apply Hgone | done].
  - by destruct (Hprop e).
Qed.

(** A reader that takes [k] writes and then closes its end before the
    source is exhausted: the transform returns without error and without
    verification, and the reader has exactly the first [k] chunks of
    1024 * 1024 bytes, whatever the checksum says. *)
Theorem transform_reader_leaves (info : AWSFile) (readable : bytes) (w : Writable)
    (k : nat) (cs algorithm digest : string) (hexdigest : bytes -> string) :
  checksum info = Some cs ->
  split_checksum cs = Ok (algorithm, digest) ->
  hashlib algorithm = Some hexdigest ->
  accepts w = Some k ->
  k * N.to_nat CHUNK < length readable ->
  fst (HashingPipe_transform info readable w) = Ok tt /\
  received (writable (snd (HashingPipe_transform info readable w)))
    = received w ++ take (k * N.to_nat CHUNK) readable.
Proof.
  intros Hcs Hsplit Hhash Hacc Hmore. unfold HashingPipe_transform, read.
  rewrite Hcs, Hsplit, Hhash.
  set (st := {| hasher := []; writable := w; events := [] |}).
  destruct (loop_reader_leaves CHUNK (take_bytes CHUNK readable)
              (drop_bytes CHUNK readable) st k CHUNK_pos) as [Hexit Hgot];
    try (by rewrite take_drop_bytes); [done|].
  rewrite take_drop_bytes in Hgot. simpl in Hgot.
  destruct (transform_loop CHUNK _ _ st) as [exit st'] eqn:Hloop. simpl in *.
  by subst exit.
Qed.

(** The download pipe in front of a reader that stays: the bytes the record
    stands for go to the reader; S3 is asked only when there is no inlined
    content, then once, for [version]. *)
Lemma writeTo_stored (self : AWSFile) (data : bytes) (w : Writable) (world : World) :
  stored_bytes self = Some data ->
  accepts w = None ->
  fst (DownloadPipe_writeTo self w world)
    = Ok {| received := received w ++ data; accepts := None |} /\
  files (snd (DownloadPipe_writeTo self w world)) = files world /\
  calls (snd (DownloadPipe_writeTo self w world))
    = calls world ++
      match content self, version self with
      | None, Some v =>
          [DownloadFileobj (filesBucket (outer self)) (fileID self) v (_s3EncryptionArgs self)]
      | _, _ => []
      end.
Proof.
  unfold stored_bytes, DownloadPipe_writeTo, write, bind, call, ret, compat_bytes.
  intros Hdata Hopen. rewrite Hopen.
  destruct (content self) as [c|]; simpl.
  - injection Hdata as ->. by rewrite app_nil_r.
  - destruct (version self) as [v|]; simpl in *; [|done].
    destruct (String.eqb v ""); [done|]. by injection Hdata as <-.
Qed.

Lemma downloadStream_verified_run (self : AWSFile) (data : bytes) (reader : Writable)
    (world : World) (cs algorithm digest : string) (hexdigest : bytes -> string) :
  stored_bytes self = Some data ->
  checksum self = Some cs ->
  split_checksum cs = Ok (algorithm, digest) ->
  hashlib algorithm = Some hexdigest ->
  accepts reader = None ->
  received (consumer (fst (downloadStream self true reader world)))
    = received reader ++ data /\
  outcome (fst (downloadStream self true reader world))
    = (if String.eqb (format_checksum algorithm (hexdigest data)) cs
       then Ok tt else Raise (ChecksumError "")).
Proof.
  intros Hdata Hcs Hsplit Hhash Hopen. unfold downloadStream.
  rewrite Hcs, (split_checksum_nonempty cs _ Hsplit).
  destruct (writeTo_stored self data fresh_pipe world Hdata eq_refl) as (Hw & _ & _).
  destruct (DownloadPipe_writeTo self fresh_pipe world) as [r1 world'].
  simpl in Hw. subst r1. simpl received.
  destruct (transform_to_eof self data reader cs algorithm digest hexdigest)
    as (Hres & Hgot & _); try done.
  destruct (HashingPipe_transform self data reader) as [r st]. simpl in *.
  rewrite Hres, Hgot. simpl. by destruct (String.eqb _ cs).
Qed.

(** [downloadStream] with verification, for a record with content or a
    version and a checksum that parses, in front of a reader that stays to
    the end: the reader gets exactly the bytes of the record, and the scope
    ends normally when the checksum of those bytes is the recorded one and
    in [ChecksumError] when it is not. *)
Theorem downloadStream_verified (self : AWSFile) (data : bytes) (reader : Writable)
    (world : World) (cs algorithm digest : string) (hexdigest : bytes -> string) :
  stored_bytes self = Some data ->
  checksum self = Some cs ->
  split_checksum cs = Ok (algorithm, digest) ->
  hashlib algorithm = Some hexdigest ->
  accepts reader = None ->
  let d := fst (downloadStream self true reader world) in
  received (consumer d) = received reader ++ data /\
  (format_checksum algorithm (hexdigest data) = cs <-> outcome d = Ok tt) /\
  (format_checksum algorithm (hexdigest data) <> cs <-> outcome d = Raise (ChecksumError "")).
Proof.
  intros Hdata Hcs Hsplit Hhash Hopen d. subst d. unfold downloadStream.
  rewrite Hcs, (split_checksum_nonempty cs _ Hsplit).
  destruct (writeTo_stored self data fresh_pipe world Hdata eq_refl) as (Hw & _ & _).
  destruct (DownloadPipe_writeTo self fresh_pipe world) as [r1 world'].
  simpl in Hw. subst r1. simpl received.
  destruct (transform_to_eof self data reader cs algorithm digest hexdigest)
    as (Hres & Hgot & _); try done.
  destruct (HashingPipe_transform self data reader) as [r st]. simpl in *.
  rewrite Hres, Hgot. simpl.
  destruct (String.eqb_spec (format_checksum algorithm (hexdigest data)) cs); simpl;
    repeat split; try done; intros; congruence.
Qed.

(** [downloadStream] without verification - [verifyChecksum] is false, or
    the record has no checksum or the empty one - in front of a reader that
    stays: the reader gets exactly the bytes of the record, nothing is
    hashed, and the scope ends normally. *)
Theorem downloadStream_unverified (self : AWSFile) (data : bytes) (verifyChecksum : bool)
    (reader : Writable) (world : World) :
  stored_bytes self = Some data ->
  verifyChecksum = false \/ checksum self = None \/ checksum self = Some "" ->
  accepts reader = None ->
  let d := fst (downloadStream self verifyChecksum reader world) in
  received (consumer d) = received reader ++ data /\
  outcome d = Ok tt /\ steps d = [].
Proof.
  intros Hdata Hoff Hopen d. subst d. unfold downloadStream.
  assert ((if verifyChecksum then nonempty (checksum self) else None) = None) as ->.
  { destruct verifyChecksum; [|done]. apply nonempty_None.
    destruct Hoff as [|]; [done | tauto]. }
  destruct (writeTo_stored self data reader world Hdata Hopen) as (Hw & _ & _).
  destruct (DownloadPipe_writeTo self reader world) as [r1 world'].
  simpl in Hw. by subst r1.
Qed.

(** A checksum that does not parse, or names an algorithm hashlib does not
    have, makes a verified [downloadStream] fail before a single byte is
    read: [ValueError] when the number of ['$'] is not one, [AttributeError]
    for the unknown algorithm; the reader is given nothing. *)
Theorem downloadStream_bad_checksum (self : AWSFile) (cs : string) (reader : Writable)
    (world : World) :
  checksum self = Some cs ->
  cs <> "" ->
  let d := fst (downloadStream self true reader world) in
  (count_char "$" cs <> 1 ->
     (exists msg, outcome d = Raise (ValueError msg)) /\ consumer d = reader /\ steps d = []) /\
  (forall algorithm digest,
     split_checksum cs = Ok (algorithm, digest) -> hashlib algorithm = None ->
     outcome d = Raise (AttributeError algorithm) /\ consumer d = reader /\ steps d = []).
Proof.
  intros Hcs Hne d. subst d. unfold downloadStream.
  rewrite Hcs, (nonempty_intro cs Hne).
  destruct (DownloadPipe_writeTo self fresh_pipe world) as [r1 world'].
  unfold HashingPipe_transform. rewrite Hcs. split.
  - intros Hcount. destruct (split_checksum_malformed cs Hcount) as [msg ->].
    simpl. repeat split; try done. by exists msg.
  - intros algorithm digest -> ->. done.
Qed.

End Forwarding.

Lemma transform_reader_leaves_witness :
  fst (HashingPipe_transform (R := python) (remote_record (b "hellx")) (b "hellx")
         {| received := []; accepts := Some 0 |}) = Ok tt
  /\ received (writable (snd (HashingPipe_transform (R := python) (remote_record (b "hellx"))
                               (b "hellx") {| received := []; accepts := Some 0 |}))) = [].
Proof.
  assert (0 * N.to_nat CHUNK < length (b "hellx")) as Hmore.
  { change (0 < 5). lia. }
  exact (transform_reader_leaves (R := python) (remote_record (b "hellx")) (b "hellx")
           {| received := []; accepts := Some 0 |} 0 hello_checksum "sha256"
           "2cf24dba5fb0a30e26e83b2ac5b9e29e1b161e5c1fa7425e73043362938b9824"
           Hashlib.sha256 eq_refl eq_refl eq_refl eq_refl Hmore).
Defined.

Lemma downloadStream_verified_witness :
  received (consumer (fst (downloadStream (R := python) (remote_record (b "hello")) true
                             fresh_pipe empty_world))) = b "hello"
  /\ received (consumer (fst (downloadStream (R := python)
                                (inline_record (b "hello") (Some hello_checksum)) true
                                fresh_pipe empty_world))) = b "hello".
Proof.
  split.
  - exact (proj1 (downloadStream_verified (R := python) (remote_record (b "hello")) (b "hello")
                    fresh_pipe empty_world hello_checksum "sha256"
                    "2cf24dba5fb0a30e26e83b2ac5b9e29e1b161e5c1fa7425e73043362938b9824"
                    Hashlib.sha256 eq_refl eq_refl eq_refl eq_refl eq_refl)).
  - exact (proj1 (downloadStream_verified (R := python)
                    (inline_record (b "hello") (Some hello_checksum)) (b "hello")
                    fresh_pipe empty_world hello_checksum "sha256"
                    "2cf24dba5fb0a30e26e83b2ac5b9e29e1b161e5c1fa7425e73043362938b9824"
                    Hashlib.sha256 eq_refl eq_refl eq_refl eq_refl eq_refl)).
Defined.

Lemma downloadStream_unverified_witness :
  outcome (fst (downloadStream (R := python) (remote_record (b "hellx")) false
                  fresh_pipe empty_world)) = Ok tt
  /\ received (consumer (fst (downloadStream (R := python) (inline_record (b "hellx") (Some ""))
                                true fresh_pipe empty_world))) = b "hellx".
Proof.
  split.
  - exact (proj1 (proj2 (downloadStream_unverified (R := python) (remote_record (b "hellx"))
                           (b "hellx") false fresh_pipe empty_world eq_refl
                           (or_introl eq_refl) eq_refl))).
  - exact (proj1 (downloadStream_unverified (R := python)
                    (inline_record (b "hellx") (Some "")) (b "hellx") true fresh_pipe
                    empty_world eq_refl (or_intror (or_intror eq_refl)) eq_refl)).
Defined.

Lemma downloadStream_bad_checksum_witness :
  (exists msg,
     outcome (fst (downloadStream (R := python) (inline_record (b "hello") (Some "sha256"))
                     true fresh_pipe empty_world)) = Raise (ValueError msg))
  /\ outcome (fst (downloadStream (R := python) (inline_record (b "hello") (Some "md4$00"))
                     true fresh_pipe empty_world)) = Raise (AttributeError "md4").
Proof.
  assert ("sha256" <> "") as Hne by discriminate.
  assert ("md4$00" <> "") as Hne' by discriminate.
  assert (count_char "$" "sha256" <> 1) as Hcount by discriminate.
  split.
  - exact (proj1 (proj1 (downloadStream_bad_checksum (R := python)
                           (inline_record (b "hello") (Some "sha256")) "sha256" fresh_pipe
                           empty_world eq_refl Hne) Hcount)).
  - exact (proj1 (proj2 (downloadStream_bad_checksum (R := python)
                           (inline_record (b "hello") (Some "md4$00")) "md4$00" fresh_pipe
                           empty_world eq_refl Hne') "md4" "00" eq_refl eq_refl)).
Defined.

(** ** More on [download] *)

Lemma append_inj_l (p s t : string) : p +:+ s = p +:+ t -> s = t.
Proof. induction p as [|c p IH]; simpl; [done|]. intros [= Heq]. by apply IH. Qed.

Section MoreDownload.
Context {R : Runtime}.

(** [download] on the version branch, run symbolically: the object is
    fetched with one call pinned to [version] and published, then the
    checksum, if asked for and present, is split, recomputed over the
    published file and compared. *)
Lemma download_remote_run (self : AWSFile) (localFilePath v : string)
    (verifyChecksum : bool) (w : World) :
  content self = None -> version self = Some v -> v <> "" ->
  let data := object_body (outer self) (fileID self) v in
  download self localFilePath verifyChecksum w
  = (match (if verifyChecksum then nonempty (checksum self) else None) with
     | None => Ok tt
     | Some cs =>
         match split_checksum cs with
         | Raise e => Raise e
         | Ok (algorithm, _) =>
             match hashlib algorithm with
             | None => Raise (AttributeError algorithm)
             | Some hexdigest =>
                 let computed := format_checksum algorithm (hexdigest data) in
                 if String.eqb cs computed then Ok tt
                 else Raise (ChecksumError (mismatch_message localFilePath cs computed))
             end
         end
     end,
     {| files := <[localFilePath := data]>
                   (base.delete (atomic_tmp_file localFilePath)
                      (<[atomic_tmp_file localFilePath := data]> (files w)));
        calls := calls w ++ [DownloadFile (filesBucket (outer self)) (fileID self)
                               (atomic_tmp_file localFilePath) v (_s3EncryptionArgs self)] |}).
Proof.
  intros Hc Hv Hne data. unfold download. rewrite Hc, Hv, (nonempty_intro v Hne).
  unfold bind at 1. rewrite download_publishes. fold data.
  destruct (if verifyChecksum then nonempty (checksum self) else None) as [cs|]; [|done].
  unfold bind, lift, compute_checksum_for_file, bind, read_file, ret, raise.
  destruct (split_checksum cs) as [[algorithm digest]|e]; simpl; [|done].
  rewrite lookup_insert_eq.
  destruct (hashlib algorithm) as [hexdigest|]; simpl; [|done].
  by destruct (String.eqb cs _).
Qed.

(** [download] with no verification to do - [verifyChecksum] is false, or
    the record has no checksum or the empty one - of a record kept in S3
    returns normally, with the fetched bytes at the destination, after
    exactly one call to S3, pinned to [version] and carrying the
    encryption arguments. *)
Theorem download_unverified (self : AWSFile) (localFilePath v : string)
    (verifyChecksum : bool) (w : World) :
  content self = None -> version self = Some v -> v <> "" ->
  verifyChecksum = false \/ checksum self = None \/ checksum self = Some "" ->
  fst (download self localFilePath verifyChecksum w) = Ok tt /\
  files (snd (download self localFilePath verifyChecksum w)) !! localFilePath
    = Some (object_body (outer self) (fileID self) v) /\
  issued_by (download self localFilePath verifyChecksum) w
    = [DownloadFile (filesBucket (outer self)) (fileID self)
         (atomic_tmp_file localFilePath) v (_s3EncryptionArgs self)].
Proof.
  intros Hc Hv Hne Hoff. unfold issued_by.
  rewrite (download_remote_run self localFilePath v verifyChecksum w Hc Hv Hne).
  assert ((if verifyChecksum then nonempty (checksum self) else None) = None) as ->.
  { destruct verifyChecksum; [|done]. apply nonempty_None.
    destruct Hoff as [|]; [done | tauto]. }
  simpl. by rewrite lookup_insert_eq, skipn_calls.
Qed.

(** [download] with verification of a record kept in S3 whose checksum
    does not have exactly one ['$'] raises the [ValueError] of the
    unpacking, not [ChecksumError] - and by then the fetched bytes are
    already published at the destination. *)
Theorem download_malformed_checksum (self : AWSFile) (localFilePath v cs : string)
    (w : World) :
  content self = None -> version self = Some v -> v <> "" ->
  checksum self = Some cs -> cs <> "" ->
  count_char "$" cs <> 1 ->
  (exists msg, fst (download self localFilePath true w) = Raise (ValueError msg)) /\
  files (snd (download self localFilePath true w)) !! localFilePath
    = Some (object_body (outer self) (fileID self) v).
Proof.
  intros Hc Hv Hne Hcs Hcsne Hcount.
  rewrite (download_remote_run self localFilePath v true w Hc Hv Hne).
  rewrite Hcs, (nonempty_intro cs Hcsne).
  destruct (split_checksum_malformed cs Hcount) as [msg ->]. simpl.
  rewrite lookup_insert_eq. split; [by exists msg | done].
Qed.

(** The two verifying readers agree on a record kept in S3: with the same
    recorded checksum and the same bytes from S3, [download] returns
    normally exactly when a [downloadStream] read to the end does, and it
    raises [ChecksumError] exactly when the stream does. *)
Theorem download_agrees_with_stream (self : AWSFile) (localFilePath v cs : string)
    (reader : Writable) (w world : World) :
  content self = None -> version self = Some v -> v <> "" ->
  checksum self = Some cs -> cs <> "" ->
  accepts reader = None ->
  let d := fst (downloadStream self true reader world) in
  (fst (download self localFilePath true w) = Ok tt <-> outcome d = Ok tt) /\
  ((exists msg, fst (download self localFilePath true w) = Raise (ChecksumError msg))
     <-> outcome d = Raise (ChecksumError "")).
Proof.
  intros Hc Hv Hne Hcs Hcsne Hopen d.
  rewrite (download_remote_run self localFilePath v true w Hc Hv Hne).
  rewrite Hcs, (nonempty_intro cs Hcsne). simpl fst.
  assert (stored_bytes self = Some (object_body (outer self) (fileID self) v)) as Hdata.
  { unfold stored_bytes. by rewrite Hc, Hv, (nonempty_intro v Hne). }
  destruct (split_checksum cs) as [[algorithm digest]|e] eqn:Hsplit.
  - destruct (hashlib algorithm) as [hexdigest|] eqn:Hhash.
    + destruct (downloadStream_verified_run self _ reader world cs algorithm digest hexdigest
                  Hdata Hcs Hsplit Hhash Hopen) as (_ & Hout).
      fold d in Hout. rewrite Hout.
      rewrite (String.eqb_sym cs).
      destruct (String.eqb _ cs); split; split; try done; try by intros [? [=]].
      intros _. by eexists.
    + assert (outcome d = Raise (AttributeError algorithm)) as ->.
      { subst d. unfold downloadStream. rewrite Hcs, (nonempty_intro cs Hcsne).
        destruct (DownloadPipe_writeTo self fresh_pipe world) as [r1 world'].
        unfold HashingPipe_transform. by rewrite Hcs, Hsplit, Hhash. }
      split; split; try done; by intros [? [=]].
  - destruct (split_checksum_raises cs e Hsplit) as [m ->].
    assert (outcome d = Raise (ValueError m)) as ->.
    { subst d. unfold downloadStream. rewrite Hcs, (nonempty_intro cs Hcsne).
      destruct (DownloadPipe_writeTo self fresh_pipe world) as [r1 world'].
      unfold HashingPipe_transform. by rewrite Hcs, Hsplit. }
    split; split; try done; by intros [? [=]].
Qed.

End MoreDownload.

Lemma download_unverified_witness :
  fst (download (R := python) (remote_record (b "hellx")) "/tmp/out" false empty_world)
    = Ok tt
  /\ files (snd (download (R := python) (remote_record (b "hellx")) "/tmp/out" false
                   empty_world)) !! "/tmp/out" = Some (b "hellx").
Proof.
  assert ("v1" <> "") as Hv by discriminate.
  pose proof (download_unverified (R := python) (remote_record (b "hellx")) "/tmp/out" "v1"
                false empty_world eq_refl eq_refl Hv (or_introl eq_refl)) as H.
  split; [exact (proj1 H) | exact (proj1 (proj2 H))].
Defined.

Lemma download_malformed_checksum_witness :
  exists msg,
    fst (download (R := python)
           (set_checksum (Some "sha256") (remote_record (b "hello")))
           "/tmp/out" true empty_world) = Raise (ValueError msg).
Proof.
  assert ("v1" <> "") as Hv by discriminate.
  assert ("sha256" <> "") as Hne by discriminate.
  assert (count_char "$" "sha256" <> 1) as Hcount by discriminate.
  exact (proj1 (download_malformed_checksum (R := python)
                  (set_checksum (Some "sha256") (remote_record (b "hello")))
                  "/tmp/out" "v1" "sha256" empty_world eq_refl eq_refl Hv eq_refl Hne Hcount)).
Defined.

Lemma download_agrees_with_stream_witness :
  (fst (download (R := python) (remote_record (b "hello")) "/tmp/out" true empty_world)
     = Ok tt
   <-> outcome (fst (downloadStream (R := python) (remote_record (b "hello")) true
                       fresh_pipe empty_world)) = Ok tt)
  /\ ((exists msg,
         fst (download (R := python) (remote_record (b "hellx")) "/tmp/out" true empty_world)
           = Raise (ChecksumError msg))
      <-> outcome (fst (downloadStream (R := python) (remote_record (b "hellx")) true
                          fresh_pipe empty_world)) = Raise (ChecksumError "")).
Proof.
  assert ("v1" <> "") as Hv by discriminate.
  assert (hello_checksum <> "") as Hne by discriminate.
  split.
  - exact (proj1 (download_agrees_with_stream (R := python) (remote_record (b "hello"))
                    "/tmp/out" "v1" hello_checksum fresh_pipe empty_world empty_world
                    eq_refl eq_refl Hv eq_refl Hne eq_refl)).
  - exact (proj2 (download_agrees_with_stream (R := python) (remote_record (b "hellx"))
                    "/tmp/out" "v1" hello_checksum fresh_pipe empty_world empty_world
                    eq_refl eq_refl Hv eq_refl Hne eq_refl)).
Defined.

(** ** Records with nothing stored, and records stored inline *)

Section Reads.
Context {R : Runtime}.

(** Reading a record that has neither inlined content nor a non-empty
    version fails the assertion and leaves everything as it was: [download]
    creates no file and calls nothing, and a [downloadStream] hands the
    reader nothing; only [getSize] answers, with 0. *)
Theorem read_empty_record (self : AWSFile) (localFilePath : string)
    (reader : Writable) (w : World) :
  content self = None ->
  version self = None \/ version self = Some "" ->
  (forall verifyChecksum,
     download self localFilePath verifyChecksum w = (Raise AssertionError, w)) /\
  downloadStream self false reader w
    = ({| consumer := reader; outcome := Raise AssertionError; steps := [] |}, w) /\
  (forall dstObj, copyTo self dstObj w = (Raise AssertionError, w)) /\
  getSize self w = (Ok 0%Z, w).
Proof.
  intros Hc Hv. apply nonempty_None in Hv.
  unfold download, downloadStream, DownloadPipe_writeTo, copyTo, getSize.
  rewrite Hc, Hv. done.
Qed.

(** A record with inlined content is read without S3: [download],
    [downloadStream] (verified or not, whatever the reader does) and
    [getSize] issue no call at all, and [download] writes exactly the
    inlined bytes. *)
Theorem inline_reads_stay_local (self : AWSFile) (data : bytes) (localFilePath : string)
    (verifyChecksum : bool) (reader : Writable) (w : World) :
  content self = Some data ->
  issued_by (download self localFilePath verifyChecksum) w = [] /\
  snd (downloadStream self verifyChecksum reader w) = w /\
  getSize self w = (Ok (Z.of_nat (length data)), w).
Proof.
  intros Hc. split; [|split].
  - unfold issued_by, download, AtomicFileCreate, write_file. rewrite Hc. simpl.
    rewrite lookup_insert_eq. simpl. by rewrite skipn_calls0.
  - unfold downloadStream, DownloadPipe_writeTo, ret, raise. rewrite Hc.
    destruct (if verifyChecksum then nonempty (checksum self) else None).
    + simpl. by destruct (HashingPipe_transform self data reader).
    + by destruct (write data reader) as [[[]|e] w'].
  - unfold getSize. by rewrite Hc.
Qed.

(** Reading a record kept in S3.  [downloadStream] issues exactly one
    download, for the key [fileID], naming [version] as VersionId and
    carrying the encryption arguments, verified or not and whatever the
    reader does, and touches no local file.  [getSize] issues exactly one
    lookup of the content length, for the key [fileID] and without a
    version: it returns what S3 declares for the object under that key,
    the same for every non-empty version the record may carry. *)
Theorem remote_stream_pins_version (self : AWSFile) (v : string) (verifyChecksum : bool)
    (reader : Writable) (w : World) :
  content self = None -> version self = Some v -> v <> "" ->
  calls (snd (downloadStream self verifyChecksum reader w))
    = calls w ++ [DownloadFileobj (filesBucket (outer self)) (fileID self) v
                    (_s3EncryptionArgs self)] /\
  files (snd (downloadStream self verifyChecksum reader w)) = files w /\
  getSize self w
    = (Ok (object_content_length (outer self) (fileID self)),
       {| files := files w;
          calls := calls w ++ [ContentLength (filesBucket (outer self)) (fileID self)] |}) /\
  (forall v', v' <> "" -> getSize (set_version (Some v') self) w = getSize self w).
Proof.
  intros Hc Hv Hne. split; [|split; [|split]].
  - unfold downloadStream, DownloadPipe_writeTo, bind, call, ret, raise, compat_bytes.
    rewrite Hc, Hv, (nonempty_intro v Hne).
    destruct (if verifyChecksum then nonempty (checksum self) else None); simpl.
    + destruct (HashingPipe_transform self _ reader). done.
    + by destruct (write _ reader) as [[[]|e] w'].
  - unfold downloadStream, DownloadPipe_writeTo, bind, call, ret, raise, compat_bytes.
    rewrite Hc, Hv, (nonempty_intro v Hne).
    destruct (if verifyChecksum then nonempty (checksum self) else None); simpl.
    + destruct (HashingPipe_transform self _ reader). done.
    + by destruct (write _ reader) as [[[]|e] w'].
  - unfold getSize, bind, call, ret, compat_bytes. by rewrite Hc, Hv, (nonempty_intro v Hne).
  - intros v' Hne'. unfold getSize, bind, call, ret, compat_bytes.
    change (content (set_version (Some v') self)) with (content self).
    change (version (set_version (Some v') self)) with (Some v').
    by rewrite Hc, Hv, (nonempty_intro v Hne), (nonempty_intro v' Hne').
Qed.

(** With an empty source the hashing pipe has nothing to forward, so it
    never finds out whether the reader is still there: for a record whose
    bytes are empty, a verified [downloadStream] ends normally exactly when
    the recorded checksum is that of the empty byte string and in
    [ChecksumError] otherwise - also when the reader has closed its end. *)
Theorem downloadStream_empty_source (self : AWSFile) (reader : Writable) (world : World)
    (cs algorithm digest : string) (hexdigest : bytes -> string) :
  stored_bytes self = Some [] ->
  checksum self = Some cs ->
  split_checksum cs = Ok (algorithm, digest) ->
  hashlib algorithm = Some hexdigest ->
  let d := fst (downloadStream self true reader world) in
  consumer d = reader /\
  steps d = [Hexdigest (hexdigest [])] /\
  outcome d = (if String.eqb (format_checksum algorithm (hexdigest [])) cs
               then Ok tt else Raise (ChecksumError "")).
Proof.
  intros Hdata Hcs Hsplit Hhash d. subst d. unfold downloadStream.
  rewrite Hcs, (split_checksum_nonempty cs _ Hsplit).
  destruct (writeTo_stored self [] fresh_pipe world Hdata eq_refl) as (Hw & _ & _).
  destruct (DownloadPipe_writeTo self fresh_pipe world) as [r1 world'].
  simpl in Hw. subst r1. simpl received.
  unfold HashingPipe_transform, read. rewrite Hcs, Hsplit, Hhash. simpl.
  simp transform_loop. simpl.
  by destruct (String.eqb _ cs).
Qed.

End Reads.

Lemma read_empty_record_witness :
  download (R := python) new_record "/tmp/out" true empty_world
    = (Raise AssertionError, empty_world)
  /\ getSize new_record empty_world = (Ok 0%Z, empty_world).
Proof.
  pose proof (read_empty_record (R := python) new_record "/tmp/out" fresh_pipe empty_world
                eq_refl (or_introl eq_refl)) as (Hdownload & _ & _ & Hsize).
  split; [exact (Hdownload true) | exact Hsize].
Defined.

Lemma inline_reads_stay_local_witness :
  issued_by (download (R := python) (inline_record (b "hello") (Some hello_checksum))
               "/tmp/out" true) empty_world = []
  /\ snd (downloadStream (R := python) (inline_record (b "hello") (Some hello_checksum))
            true fresh_pipe empty_world) = empty_world.
Proof.
  pose proof (inline_reads_stay_local (R := python)
                (inline_record (b "hello") (Some hello_checksum)) (b "hello") "/tmp/out"
                true fresh_pipe empty_world eq_refl) as (Hdownload & Hstream & _).
  split; [exact Hdownload | exact Hstream].
Defined.

Lemma remote_stream_pins_version_witness :
  calls (snd (downloadStream (R := python) (remote_record (b "hello")) true fresh_pipe
                empty_world))
    = [DownloadFileobj "toil-files" "file-1" "v1" []]
  /\ getSize (set_version (Some "v9") (remote_record (b "hello"))) empty_world
     = getSize (remote_record (b "hello")) empty_world.
Proof.
  assert ("v1" <> "") as Hv by discriminate.
  assert ("v9" <> "") as Hv' by discriminate.
  pose proof (remote_stream_pins_version (R := python) (remote_record (b "hello")) "v1" true
                fresh_pipe empty_world eq_refl eq_refl Hv) as (Hcalls & _ & _ & Hsame).
  split; [exact Hcalls | exact (Hsame "v9" Hv')].
Defined.

Lemma downloadStream_empty_source_witness :
  outcome (fst (downloadStream (R := python) (inline_record [] (Some hello_checksum)) true
                  {| received := []; accepts := Some 0 |} empty_world))
    = Raise (ChecksumError "").
Proof.
  pose proof (downloadStream_empty_source (R := python)
                (inline_record [] (Some hello_checksum))
                {| received := []; accepts := Some 0 |} empty_world hello_checksum "sha256"
                "2cf24dba5fb0a30e26e83b2ac5b9e29e1b161e5c1fa7425e73043362938b9824"
                Hashlib.sha256 eq_refl eq_refl eq_refl eq_refl) as (_ & _ & Hout).
  rewrite Hout. vm_compute. reflexivity.
Defined.

(** ** [upload] followed by other methods *)

Lemma format_checksum_inj (algorithm x y : string) :
  format_checksum algorithm x = format_checksum algorithm y -> x = y.
Proof.
  unfold format_checksum. intros Heq.
  apply append_inj_l in Heq. by apply (append_inj_l "$") in Heq.
Qed.

Section AfterUpload.
Context {R : Runtime}.

(** What a returning [upload] leaves: [upload] touches [checksum] and
    [version] and nothing else. *)
Lemma upload_frame (self self' : AWSFile) (localFilePath : string)
    (calculateChecksum : bool) (w w' : World) :
  upload self localFilePath calculateChecksum w = (Ok self', w') ->
  fileID self' = fileID self /\ content self' = content self /\
  previousVersion self' = previousVersion self /\ outer self' = outer self /\
  files w' = files w.
Proof.
  unfold upload, uploadFromPath, compute_checksum_for_file, bind, read_file, call, ret, raise.
  destruct calculateChecksum; simpl.
  - destruct (files w !! localFilePath) as [data|] eqn:Hfile; simpl; [|discriminate].
    destruct (hashlib default_algorithm) as [hexdigest|]; simpl; [|discriminate].
    rewrite Hfile. simpl. intros Heq. by inversion Heq.
  - destruct (files w !! localFilePath) as [data|]; simpl; [|discriminate].
    intros Heq. by inversion Heq.
Qed.

(** [upload] with a checksum, run symbolically. *)
Lemma upload_checksummed_run (self : AWSFile) (localFilePath : string) (w : World)
    (data : bytes) (hexdigest : bytes -> string) :
  files w !! localFilePath = Some data ->
  hashlib default_algorithm = Some hexdigest ->
  upload self localFilePath true w
  = (Ok (set_version (Some (uploaded_version (outer self) (fileID self) data))
           (set_checksum (Some (format_checksum default_algorithm (hexdigest data))) self)),
     {| files := files w;
        calls := calls w ++ [UploadFromPath localFilePath (filesBucket (outer self))
                               (fileID self) (_s3EncryptionArgs self)
                               (partSize (outer self))] |}).
Proof.
  intros Hfile Hhash.
  unfold upload, uploadFromPath, compute_checksum_for_file, bind, read_file, call, ret,
    raise, compat_bytes. simpl.
  rewrite Hfile, Hhash. simpl. by rewrite Hfile.
Qed.

(** [delete] after [upload] is [delete] before it: what is deleted is the
    version the record was loaded with, never the one just uploaded; for a
    new record ([previousVersion] is [None]) nothing is deleted and the
    uploaded object stays in the bucket. *)
Theorem upload_then_delete (self self' : AWSFile) (localFilePath : string)
    (calculateChecksum : bool) (w w' : World) :
  upload self localFilePath calculateChecksum w = (Ok self', w') ->
  (forall w2, delete self' w2 = delete self w2) /\
  (previousVersion self = None -> delete self' w' = (Ok tt, w')) /\
  (forall bucket k v w2, In (DeleteObject bucket k v) (issued_by (delete self') w2) ->
     previousVersion self = Some v).
Proof.
  intros Hup. destruct (upload_frame _ _ _ _ _ _ Hup) as (Hid & _ & Hpv & Hout & _).
  assert (forall w2, delete self' w2 = delete self w2) as Hsame.
  { intros w2. unfold delete. by rewrite Hid, Hpv, Hout. }
  split; [done|]. split.
  - intros Hnew. rewrite Hsame. unfold delete. by rewrite Hnew.
  - intros bucket k v w2. unfold issued_by. rewrite Hsame.
    destruct (delete_run self w2) as (_ & _ & Hcs). unfold issued_by in Hcs. rewrite Hcs.
    destruct (previousVersion self) as [pv|]; [|by intros []].
    destruct (domain_holds (outer self) (fileID self) pv);
      destruct (String.eqb pv ""); simpl; intros Hin; intuition congruence.
Qed.

(** Uploading a file with its checksum and downloading the record with
    verification, for a record without inlined content: the checksum string
    [upload] stored parses again when neither the algorithm name nor the
    digest contains ['$'], the download fetches the version [upload] got,
    and it returns normally exactly when the digest of the fetched bytes is
    the digest of the uploaded file - so it does when S3 gives the
    uploaded bytes back - and raises [ChecksumError] exactly when it is
    not. *)
Theorem upload_then_download (self : AWSFile) (source destination : string) (w : World)
    (data : bytes) (hexdigest : bytes -> string) :
  content self = None ->
  files w !! source = Some data ->
  hashlib default_algorithm = Some hexdigest ->
  count_char "$" default_algorithm = 0 ->
  count_char "$" (hexdigest data) = 0 ->
  uploaded_version (outer self) (fileID self) data <> "" ->
  exists self' w',
    upload self source true w = (Ok self', w') /\
    let fetched := object_body (outer self) (fileID self)
                     (uploaded_version (outer self) (fileID self) data) in
    files (snd (download self' destination true w')) !! destination = Some fetched /\
    (hexdigest fetched = hexdigest data
       <-> fst (download self' destination true w') = Ok tt) /\
    (hexdigest fetched <> hexdigest data
       <-> exists msg, fst (download self' destination true w') = Raise (ChecksumError msg)) /\
    (fetched = data -> fst (download self' destination true w') = Ok tt).
Proof.
  intros Hc Hfile Hhash Halg Hdigest Htoken.
  eexists _, _. split; [by apply upload_checksummed_run|].
  set (self' := set_version _ _). set (w' := {| files := files w; calls := _ |}).
  intros fetched.
  pose proof (split_format_clean default_algorithm (hexdigest data) Halg Hdigest)
    as Hsplit.
  rewrite (download_remote_run self' destination _ true w' Hc eq_refl Htoken).
  change (checksum self') with (Some (format_checksum default_algorithm (hexdigest data))).
  rewrite (split_checksum_nonempty _ _ Hsplit), Hsplit.
  change (outer self') with (outer self). change (fileID self') with (fileID self).
  rewrite Hhash. fold fetched. simpl.
  rewrite lookup_insert_eq. split; [done|].
  destruct (String.eqb_spec (format_checksum default_algorithm (hexdigest data))
              (format_checksum default_algorithm (hexdigest fetched))) as [Heq|Hdiff].
  - apply format_checksum_inj in Heq.
    repeat split; try done; try congruence. by intros [? [=]].
  - assert (hexdigest fetched <> hexdigest data) as Hne by (intros E; by rewrite E in Hdiff).
    repeat split; try done; try congruence.
    intros _. by eexists.
Qed.

End AfterUpload.

Lemma upload_then_delete_witness :
  delete (set_version (Some "v2") (set_checksum None new_record)) empty_world
    = delete new_record empty_world
  /\ issued_by (delete (set_version (Some "v2") (set_checksum None new_record))) empty_world
     = [].
Proof.
  assert (upload (R := python) new_record "/tmp/in" false (world_with "/tmp/in" (b "hello"))
          = (Ok (set_version (Some "v2") (set_checksum None new_record)),
             {| files := files (world_with "/tmp/in" (b "hello"));
                calls := [UploadFromPath "/tmp/in" "toil-files" "file-3" [] 52428800] |}))
    as Hup by reflexivity.
  split.
  - exact (proj1 (upload_then_delete (R := python) new_record _ "/tmp/in" false _ _ Hup)
             empty_world).
  - reflexivity.
Defined.

Lemma upload_then_download_witness :
  exists self' w',
    upload (R := python) (new_record_on (b "hello")) "/tmp/in" true
      (world_with "/tmp/in" (b "hello")) = (Ok self', w') /\
    fst (download (R := python) self' "/tmp/out" true w') = Ok tt.
Proof.
  assert (count_char "$" (Hashlib.sha1 (b "hello")) = 0) as Hdigest
    by (vm_compute; reflexivity).
  assert ("v2" <> "") as Htoken by discriminate.
  destruct (upload_then_download (R := python) (new_record_on (b "hello")) "/tmp/in"
              "/tmp/out" (world_with "/tmp/in" (b "hello")) (b "hello") Hashlib.sha1
              eq_refl eq_refl eq_refl eq_refl Hdigest Htoken)
    as (self' & w' & Hup & _ & _ & _ & Hsame).
  exists self', w'. split; [exact Hup | exact (Hsame eq_refl)].
Defined.

Section ReadAfterUpload.
Context {R : Runtime}.

(** Reading a record without inlined content after [upload] returned with
    a non-empty version: the readers go to the uploaded version.  [copyTo]
    copies from it, [download] fetches it, pinned to that version, and
    publishes what S3 delivers for it; [getSize] asks for the length of the
    object under [fileID], without a version. *)
Theorem upload_then_read (self self' : AWSFile) (localFilePath destination : string)
    (calculateChecksum : bool) (dstObj : S3Object) (w w' w2 : World) :
  upload self localFilePath calculateChecksum w = (Ok self', w') ->
  content self = None ->
  (forall data, files w !! localFilePath = Some data ->
                uploaded_version (outer self) (fileID self) data <> "") ->
  exists data,
    files w !! localFilePath = Some data /\
    version self' = Some (uploaded_version (outer self) (fileID self) data) /\
    stored_bytes self'
      = Some (object_body (outer self) (fileID self)
                (uploaded_version (outer self) (fileID self) data)) /\
    issued_by (copyTo self' dstObj) w2
      = [CopyKeyMultipart (filesBucket (outer self)) (fileID self)
           (uploaded_version (outer self) (fileID self) data)
           (bucket_name dstObj) (key dstObj) "AES256" (_getSSEKey self')] /\
    issued_by (download self' destination false) w2
      = [DownloadFile (filesBucket (outer self)) (fileID self)
           (atomic_tmp_file destination)
           (uploaded_version (outer self) (fileID self) data)
           (_s3EncryptionArgs self')] /\
    files (snd (download self' destination false w2)) !! destination
      = Some (object_body (outer self) (fileID self)
                (uploaded_version (outer self) (fileID self) data)) /\
    getSize self' w2
      = (Ok (object_content_length (outer self) (fileID self)),
         {| files := files w2;
            calls := calls w2 ++ [ContentLength (filesBucket (outer self)) (fileID self)] |}).
Proof.
  intros Hup Hc Htoken.
  assert (exists data c,
            files w !! localFilePath = Some data /\
            self' = set_version (Some (uploaded_version (outer self) (fileID self) data))
                      (set_checksum c self)) as (data & c & Hfile & ->).
  { revert Hup.
    unfold upload, uploadFromPath, compute_checksum_for_file, bind, read_file, call, ret,
      raise, compat_bytes.
    destruct calculateChecksum; simpl.
    - destruct (files w !! localFilePath) as [data|] eqn:Hfile; simpl; [|discriminate].
      destruct (hashlib default_algorithm) as [hexdigest|]; simpl; [|discriminate].
      rewrite Hfile. simpl. intros Heq. inversion Heq. by eexists _, _.
    - destruct (files w !! localFilePath) as [data|]; simpl; [|discriminate].
      intros Heq. inversion Heq. by eexists _, _. }
  specialize (Htoken data Hfile).
  set (v := uploaded_version (outer self) (fileID self) data) in *.
  set (self' := set_version (Some v) (set_checksum c self)).
  assert (content self' = None) as Hc' by done.
  assert (version self' = Some v) as Hv' by done.
  exists data. split; [done|]. split; [done|]. split; [|split; [|split; [|split]]].
  - unfold stored_bytes. by rewrite Hc', Hv', (nonempty_intro _ Htoken).
  - unfold copyTo, issued_by, call, compat_bytes.
    rewrite Hc', Hv', (nonempty_intro _ Htoken). simpl. by rewrite skipn_calls.
  - unfold issued_by, download. rewrite Hc', Hv', (nonempty_intro _ Htoken).
    unfold bind at 1. rewrite download_publishes. simpl. by rewrite skipn_calls.
  - unfold download. rewrite Hc', Hv', (nonempty_intro _ Htoken).
    unfold bind at 1. rewrite download_publishes. simpl. by rewrite lookup_insert_eq.
  - unfold getSize, bind, call, ret, compat_bytes.
    by rewrite Hc', Hv', (nonempty_intro _ Htoken).
Qed.

End ReadAfterUpload.

Lemma upload_then_read_witness :
  exists data,
    files (world_with "/tmp/in" (b "hello")) !! "/tmp/in" = Some data /\
    version (set_version (Some "v2") (set_checksum None new_record)) = Some "v2".
Proof.
  assert (upload (R := python) new_record "/tmp/in" false (world_with "/tmp/in" (b "hello"))
          = (Ok (set_version (Some "v2") (set_checksum None new_record)),
             {| files := files (world_with "/tmp/in" (b "hello"));
                calls := [UploadFromPath "/tmp/in" "toil-files" "file-3" [] 52428800] |}))
    as Hup by reflexivity.
  assert (forall data : bytes,
            files (world_with "/tmp/in" (b "hello")) !! "/tmp/in" = Some data ->
            uploaded_version (outer new_record) (fileID new_record) data <> "") as Htoken
    by (intros data _; discriminate).
  destruct (upload_then_read (R := python) new_record _ "/tmp/in" "/tmp/out" false
              {| bucket_name := "dst"; key := "k" |} _ _ empty_world Hup eq_refl Htoken)
    as (data & Hfile & Hversion & _).
  exists data. split; [exact Hfile | reflexivity].
Defined.
